(** * Lofield FM configuration validator

    A shallow embedding of [scripts/validate_config.py] and the properties
    of its checkers: cross references, music/talk ratios, schedule coverage
    and AI budgets.

    The script is Python; the embedding keeps its data as Python has it:
    - integers are unbounded ([Z]);
    - floats are IEEE 754 binary64 values ([spec_float] with precision 53
      and maximal exponent 1024), rounded to nearest even;
    - a JSON number is an [int] or a [float], and mixed arithmetic and
      comparisons follow Python's rules;
    - exceptions are explicit results ([Raise]);
    - the [errors] and [warnings] lists are threaded through the loops.

    Show documents are taken with the shape the script indexes them with
    (string ids, string times, numeric ratios and budgets); a show file that
    cannot be loaded is [None]. *)

From Stdlib Require Import ZArith List String Ascii Lia Bool DecimalString.
From Stdlib Require Import Floats.SpecFloat.
From Stdlib Require DecimalPos.
From stdpp Require Import base gmap strings list sorting.

Local Open Scope string_scope.
Local Open Scope list_scope.
Local Open Scope Z_scope.

(** ** The Python runtime the script relies on *)

Module Py.

(** *** Exceptions *)

Inductive exn := ValueError | OverflowError | ZeroDivisionError.

Inductive result (A : Type) :=
| Ok (a : A)
| Raise (e : exn).
Arguments Ok {A} a.
Arguments Raise {A} e.

#[export] Instance result_ret : MRet result := fun A a => Ok a.
#[export] Instance result_bind : MBind result := fun A B f m =>
  match m with
  | Ok a => f a
  | Raise e => Raise e
  end.

(** [for x in xs: body], with the loop's mutable state [s]; an exception
    in the body leaves the loop. *)
Fixpoint for_each {A S : Type} (xs : list A) (body : S -> A -> result S)
    (s : S) : result S :=
  match xs with
  | [] => Ok s
  | x :: rest => s' ← body s x; for_each rest body s'
  end.

(** *** Floats: binary64 *)

Definition prec : Z := 53.
Definition emax : Z := 1024.
Definition float := spec_float.

Definition fadd : float -> float -> float := SFadd prec emax.
Definition fsub : float -> float -> float := SFsub prec emax.
Definition fmul : float -> float -> float := SFmul prec emax.
Definition fdiv : float -> float -> float := SFdiv prec emax.
Definition fabs : float -> float := SFabs.
Definition fcompare : float -> float -> option comparison := SFcompare.

Definition is_zero (f : float) : bool :=
  match f with
  | S754_zero _ => true
  | _ => false
  end.

(** The least magnitude that rounds beyond the largest finite double
    [(2^53 - 1) * 2^971]: half an ulp above it. *)
Definition overflow_threshold : Z := 2 ^ 1024 - 2 ^ 970.

(** The double nearest to the rational [n / d], for [d > 0] (ties to
    even); the value of a decimal literal and of an [int / int] division. *)
Definition round_ratio (s : bool) (n d : Z) : float :=
  let '(q, e, l) := SFdiv_core_binary prec emax n 0 d 0 in
  binary_round_aux prec emax s q e l.

Definition literal (n : Z) (d : positive) : float :=
  match n with
  | Z0 => S754_zero false
  | Zpos p => round_ratio false (Zpos p) (Zpos d)
  | Zneg p => round_ratio true (Zpos p) (Zpos d)
  end.

(** [float(z)] for an int [z]: "int too large to convert to float". *)
Definition int_to_float (z : Z) : result float :=
  if overflow_threshold <=? Z.abs z then Raise OverflowError
  else Ok (binary_normalize prec emax z 0 false).

(** [a / b] on two ints: the correctly rounded quotient. *)
Definition int_truediv (a b : Z) : result float :=
  match b with
  | Z0 => Raise ZeroDivisionError
  | _ =>
      let s := xorb (a <? 0) (b <? 0) in
      match a with
      | Z0 => Ok (S754_zero s)
      | _ =>
          if overflow_threshold * Z.abs b <=? Z.abs a then Raise OverflowError
          else Ok (round_ratio s (Z.abs a) (Z.abs b))
      end
  end.

(** *** Numbers as [json.load] produces them *)

Inductive num :=
| PyInt (z : Z)
| PyFloat (f : float).

Definition to_float (x : num) : result float :=
  match x with
  | PyInt z => int_to_float z
  | PyFloat f => Ok f
  end.

(** [x + y], [x - y], [x * y]: exact on two ints, otherwise on floats
    after converting the int operand. *)
Definition arith (zop : Z -> Z -> Z) (fop : float -> float -> float)
    (x y : num) : result num :=
  match x, y with
  | PyInt a, PyInt b => Ok (PyInt (zop a b))
  | _, _ => a ← to_float x; b ← to_float y; Ok (PyFloat (fop a b))
  end.

Definition add : num -> num -> result num := arith Z.add fadd.
Definition sub : num -> num -> result num := arith Z.sub fsub.
Definition mul : num -> num -> result num := arith Z.mul fmul.

(** [x / y]: true division. *)
Definition truediv (x y : num) : result num :=
  match x, y with
  | PyInt a, PyInt b => f ← int_truediv a b; Ok (PyFloat f)
  | _, _ =>
      a ← to_float x; b ← to_float y;
      if is_zero b then Raise ZeroDivisionError else Ok (PyFloat (fdiv a b))
  end.

(** [abs(x)] *)
Definition abs (x : num) : num :=
  match x with
  | PyInt z => PyInt (Z.abs z)
  | PyFloat f => PyFloat (fabs f)
  end.

(** A float against an int: Python compares the exact values, without
    converting the int. *)
Definition fcompare_int (f : float) (z : Z) : option comparison :=
  match f with
  | S754_nan => None
  | S754_infinity s => Some (if s then Lt else Gt)
  | S754_zero _ => Some (0 ?= z)
  | S754_finite s m e =>
      let v := cond_Zopp s (Zpos m) in
      Some (if 0 <=? e then v * 2 ^ e ?= z else v ?= z * 2 ^ (- e))
  end.

Definition compare (x y : num) : option comparison :=
  match x, y with
  | PyInt a, PyInt b => Some (a ?= b)
  | PyFloat f, PyFloat g => fcompare f g
  | PyFloat f, PyInt b => fcompare_int f b
  | PyInt a, PyFloat g => CompOpp <$> fcompare_int g a
  end.

(** [x > y], [x < y], [x <= y], [x >= y]: all false on a NaN. *)
Definition gt (x y : num) : bool :=
  match compare x y with Some Gt => true | _ => false end.
Definition lt (x y : num) : bool :=
  match compare x y with Some Lt => true | _ => false end.
Definition le (x y : num) : bool :=
  match compare x y with Some (Lt | Eq) => true | _ => false end.
Definition ge (x y : num) : bool :=
  match compare x y with Some (Gt | Eq) => true | _ => false end.

(** *** Strings *)

(** [s.split(sep)] for a one-character separator. *)
Fixpoint split (sep : ascii) (s : string) : list string :=
  match s with
  | EmptyString => [EmptyString]
  | String c rest =>
      if Ascii.eqb c sep then EmptyString :: split sep rest
      else match split sep rest with
           | piece :: pieces => String c piece :: pieces
           | [] => [String c EmptyString]
           end
  end.

(** The characters [int()] strips: tab, line feed, vertical tab, form
    feed, carriage return and space. *)
Definition is_space (c : ascii) : bool :=
  let n := nat_of_ascii c in
  ((9 <=? n)%nat && (n <=? 13)%nat) || (n =? 32)%nat.

Definition digit_of (c : ascii) : option Z :=
  let n := nat_of_ascii c in
  if ((48 <=? n)%nat && (n <=? 57)%nat) then Some (Z.of_nat n - 48) else None.

Fixpoint lstrip (l : list ascii) : list ascii :=
  match l with
  | c :: rest => if is_space c then lstrip rest else l
  | [] => []
  end.

Definition strip (l : list ascii) : list ascii :=
  rev (lstrip (rev (lstrip l))).

(** What came before the current character of a decimal literal. *)
Inductive seen := Nothing | Digit | Underscore.

(** Decimal digits, with single underscores allowed between digits. *)
Fixpoint digits (acc : Z) (prev : seen) (l : list ascii) : option Z :=
  match l with
  | [] => match prev with Digit => Some acc | _ => None end
  | c :: rest =>
      match digit_of c with
      | Some d => digits (acc * 10 + d) Digit rest
      | None =>
          if Ascii.eqb c "_"
          then match prev with Digit => digits acc Underscore rest | _ => None end
          else None
      end
  end.

(** [int(s)] on a str, base 10: optional surrounding whitespace, an
    optional sign, then the digits.

    This is [int()] on ASCII text.  On other text [int()] also takes the
    decimal digits and the white space of Unicode, which are not modelled:
    that a time is rejected is stated of [ascii_text] only.  The
    interpreter may also reject a literal of too many digits (more than
    4300 unless configured, never 640 or fewer), which the model does not:
    [short_text] marks the strings that no setting of this limit
    concerns. *)
Definition int (s : string) : result Z :=
  let body := strip (list_ascii_of_string s) in
  let '(negative, ds) :=
    match body with
    | c :: rest =>
        if Ascii.eqb c "-" then (true, rest)
        else if Ascii.eqb c "+" then (false, rest)
        else (false, body)
    | [] => (false, body)
    end in
  match digits 0 Nothing ds with
  | Some z => Ok (if negative then - z else z)
  | None => Raise ValueError
  end.

(** Text of ASCII characters only. *)
Definition ascii_text (s : string) : Prop :=
  forallb (fun c => (nat_of_ascii c <? 128)%nat) (list_ascii_of_string s) = true.

(** Text of at most 640 characters: below the least value the limit on the
    digits of a literal can be set to. *)
Definition short_text (s : string) : Prop :=
  (String.length s <=? 640)%nat = true.

(** [a, b = map(int, parts)]: [int] is applied while unpacking, and a
    wrong number of values is a [ValueError] like a bad literal. *)
Definition unpack2_int (parts : list string) : result (Z * Z) :=
  match parts with
  | [a; b] => x ← int a; y ← int b; Ok (x, y)
  | _ => Raise ValueError
  end.

(** [str(z)] for an int. *)
Definition str_of_int (z : Z) : string :=
  NilZero.string_of_int (Z.to_int z).

(** *** Sorting

    [sorted] and [list.sort] are stable: elements with equal keys keep
    their order. *)
Section Sorting.
Context {A : Type} (leb : A -> A -> bool).

Fixpoint insert_sorted (x : A) (l : list A) : list A :=
  match l with
  | [] => [x]
  | y :: rest => if leb x y then x :: l else y :: insert_sorted x rest
  end.

Fixpoint sorted (l : list A) : list A :=
  match l with
  | [] => []
  | x :: rest => insert_sorted x (sorted rest)
  end.
End Sorting.

(** *** f-strings

    A formatted message is kept as the pieces of its f-string: the literal
    text and the value placed in each replacement field. *)
Inductive piece :=
| Lit (s : string)                (* literal text *)
| Str (s : string)                (* {x}, x a str or a path *)
| Int (z : Z)                     (* {x}, x an int *)
| Num (x : num)                   (* {x}, x a JSON number *)
| Fixed (places : nat) (f : float)   (* {x:.Nf} *)
| Percent (places : nat) (f : float) (* {x:.N%} *).

Definition message := list piece.

(** [{x:.Nf}] and [{x:.N%}] convert an int to a float first. *)
Definition fixed (places : nat) (x : num) : result piece :=
  f ← to_float x; Ok (Fixed places f).
Definition percent (places : nat) (x : num) : result piece :=
  f ← to_float x; Ok (Percent places f).

(** The text of a message whose fields are strings and ints. *)
Definition render_piece (p : piece) : option string :=
  match p with
  | Lit s | Str s => Some s
  | Int z | Num (PyInt z) => Some (str_of_int z)
  | _ => None
  end.

Fixpoint render (m : message) : option string :=
  match m with
  | [] => Some EmptyString
  | p :: rest =>
      s ← render_piece p; t ← render rest; Some (s +:+ t)
  end.

End Py.
Import Py.

(** ** Configuration documents *)

(** [config/station.json] *)
Record DefaultRatios := {
  max_music_fraction : num;
  min_talk_fraction : num
}.
Record Station := { default_ratios : DefaultRatios }.

(** [config/presenters.json] *)
Record Presenter := { presenter_id : string }.
Record PresentersData := { presenters_list : list Presenter }.

(** [config/tags.json] *)
Record TagsData := { allowed_topic_tags : list string }.

(** [config/shows/*.json] *)
Record Presenters := { primary_duo : list string }.
Record Topics := { primary_tags : list string }.
Record Ratios := { music_fraction : num; talk_fraction : num }.
Record Schedule := {
  start_time_utc : string;
  end_time_utc : string;
  duration_hours : num
}.
Record AiBudget := {
  max_tts_seconds_per_show : num;
  max_music_minutes_per_show : num
}.
Record Show := {
  show_id : string;            (* show['id'] *)
  presenters : Presenters;
  topics : Topics;
  ratios : Ratios;
  schedule : Schedule;
  ai_budget : AiBudget
}.

(** What the script finds on disk: [load_json] of each base file ([None]
    when it cannot be read or parsed), and the show files in the order
    [Path('config/shows').glob('*.json')] yields them, each path with
    [load_json]'s result. *)
Record Config := {
  station_json : option Station;
  presenters_json : option PresentersData;
  tags_json : option TagsData;
  shows_glob : list (string * option Show)
}.

(** [sorted(Path('config/shows').glob('*.json'))] *)
Definition show_files (c : Config) : list (string * option Show) :=
  sorted (fun a b => String.leb a.1 b.1) (shows_glob c).

(** ** The checkers *)

(** [load_json(filepath) is None] *)
Definition is_none {A : Type} (loaded : option A) : bool :=
  match loaded with
  | None => true
  | Some _ => false
  end.

(** [validate_json_syntax] *)
Definition validate_json_syntax (c : Config) : list message :=
  let files :=
    [("config/station.json", is_none (station_json c));
     ("config/presenters.json", is_none (presenters_json c));
     ("config/tags.json", is_none (tags_json c))]
    ++ map (fun f => (f.1, is_none f.2)) (shows_glob c) in
  foldl (fun errors '(filepath, is_none) =>
           if is_none : bool then errors ++ [[Lit "Invalid JSON: "; Str filepath]]
           else errors)
        [] files.

(** [validate_cross_references] *)
Definition unknown_presenter (show_id presenter_id : string) : message :=
  [Str show_id; Lit ": Unknown presenter '"; Str presenter_id; Lit "'"].
Definition unknown_tag (show_id tag : string) : message :=
  [Str show_id; Lit ": Unknown tag '"; Str tag; Lit "'"].

Definition check_references (presenter_ids allowed_tags : gset string)
    (show : Show) (errors : list message) : list message :=
  let show_id := show_id show in
  (* Validate presenter references *)
  let duo := primary_duo (presenters show) in
  let errors :=
    foldl (fun errors presenter_id =>
             if bool_decide (presenter_id ∉ presenter_ids)
             then errors ++ [unknown_presenter show_id presenter_id]
             else errors)
          errors duo in
  (* Validate topic tags *)
  let primary_tags := primary_tags (topics show) in
  foldl (fun errors tag =>
           if bool_decide (tag ∉ allowed_tags)
           then errors ++ [unknown_tag show_id tag]
           else errors)
        errors primary_tags.

Definition validate_cross_references (c : Config) : list message :=
  match presenters_json c, tags_json c with
  | Some presenters_data, Some tags_data =>
      let presenter_ids : gset string :=
        list_to_set (presenter_id <$> presenters_list presenters_data) in
      let allowed_tags : gset string :=
        list_to_set (allowed_topic_tags tags_data) in
      foldl (fun errors '(show_file, loaded) =>
               match loaded with
               | None => errors ++ [[Lit "Failed to load "; Str show_file]]
               | Some show => check_references presenter_ids allowed_tags show errors
               end)
            [] (show_files c)
  | _, _ => [[Lit "Failed to load base configuration files"]]
  end.

(** [validate_music_ratios] *)
Definition one : num := PyFloat (literal 1 1).             (* 1.0 *)
Definition sum_tolerance : num := PyFloat (literal 1 1000). (* 0.001 *)

Definition music_exceeds (show_id : string) (music_fraction max_music : num) : message :=
  [Str show_id; Lit ": Music "; Num music_fraction; Lit " exceeds maximum "; Num max_music].
Definition talk_below (show_id : string) (talk_fraction min_talk : num) : message :=
  [Str show_id; Lit ": Talk "; Num talk_fraction; Lit " below minimum "; Num min_talk].
Definition ratios_sum (show_id : string) (total : num) : message :=
  [Str show_id; Lit ": Ratios sum to "; Num total; Lit ", not 1.0"].

(** The three checks of one show (the loop body up to its [print]). *)
Definition check_ratios (max_music min_talk : num) (show : Show)
    (errors : list message) : result (list message) :=
  let show_id := show_id show in
  let music_fraction := music_fraction (ratios show) in
  let talk_fraction := talk_fraction (ratios show) in
  (* Check maximum music requirement *)
  let errors :=
    if gt music_fraction max_music
    then errors ++ [music_exceeds show_id music_fraction max_music]
    else errors in
  (* Check minimum talk requirement *)
  let errors :=
    if lt talk_fraction min_talk
    then errors ++ [talk_below show_id talk_fraction min_talk]
    else errors in
  (* Check ratios sum to 1.0 *)
  total ← add music_fraction talk_fraction;
  diff ← sub total one;
  if gt (abs diff) sum_tolerance
  then Ok (errors ++ [ratios_sum show_id total])
  else Ok errors.

Definition validate_music_ratios (c : Config) : result (list message) :=
  match station_json c with
  | None => Ok [[Lit "Failed to load station.json"]]
  | Some station =>
      let max_music := max_music_fraction (default_ratios station) in
      let min_talk := min_talk_fraction (default_ratios station) in
      for_each (show_files c)
        (fun errors '(_, loaded) =>
           match loaded with
           | None => Ok errors
           | Some show =>
               errors ← check_ratios max_music min_talk show errors;
               (* print(f"... {music_fraction:.0%} music, {talk_fraction:.0%} talk") *)
               _ ← percent 0 (music_fraction (ratios show));
               _ ← percent 0 (talk_fraction (ratios show));
               Ok errors
           end)
        []
  end.

(** [validate_schedule_coverage] *)

(** An entry of the [schedule] list: the dict with keys ['id'], ['start']
    and ['end']. *)
Record Slot := {
  slot_id : string;
  slot_start : Z;
  slot_end : Z
}.

(** Parse HH:MM format: one iteration of the parsing loop. *)
Definition parse_show (show : Show) : result Slot :=
  let show_id := show_id show in
  let start := start_time_utc (schedule show) in
  let end_ := end_time_utc (schedule show) in
  '(start_hour, start_min) ← unpack2_int (split ":" start);
  '(end_hour, end_min) ← unpack2_int (split ":" end_);
  Ok {| slot_id := show_id;
        slot_start := start_hour * 60 + start_min;
        slot_end := if bool_decide (end_ ≠ "00:00")
                    then end_hour * 60 + end_min
                    else 24 * 60 |}.

Definition parse_schedule (shows : list Show) : result (list Slot) :=
  for_each shows (fun slots show => s ← parse_show show; Ok (slots ++ [s])) [].

(** [schedule.sort(key=lambda x: x['start'])] *)
Definition sort_schedule (slots : list Slot) : list Slot :=
  sorted (fun a b => slot_start a <=? slot_start b) slots.

Definition gap_message (gap : Z) (current next_show : Slot) : message :=
  [Lit "Gap of "; Int gap; Lit " minutes between "; Str (slot_id current);
   Lit " and "; Str (slot_id next_show)].
Definition overlap_message (overlap : Z) (current next_show : Slot) : message :=
  [Lit "Overlap of "; Int overlap; Lit " minutes between "; Str (slot_id current);
   Lit " and "; Str (slot_id next_show)].

(** Check for gaps and overlaps: the body of the loop over
    [range(len(schedule))] (both indices are in range there). *)
Definition check_adjacent_at (slots : list Slot) (errors : list message)
    (i : nat) : list message :=
  match slots !! i, slots !! ((i + 1) mod length slots)%nat with
  | Some current, Some next_show =>
      let expected_end :=
        if (i <? length slots - 1)%nat then slot_start next_show else 24 * 60 in
      if slot_end current <? expected_end then
        let gap := expected_end - slot_end current in
        errors ++ [gap_message gap current next_show]
      else if slot_end current >? expected_end then
        let overlap := slot_end current - expected_end in
        errors ++ [overlap_message overlap current next_show]
      else errors
  | _, _ => errors
  end.

Definition check_adjacent (slots : list Slot) (errors : list message) : list message :=
  foldl (check_adjacent_at slots) errors (seq 0 (length slots)).

(** [sum(s['end'] - s['start'] for s in schedule)] *)
Definition total_minutes (slots : list Slot) : Z :=
  foldl (fun acc s => acc + (slot_end s - slot_start s)) 0 slots.

Definition coverage_message (hours : piece) : message :=
  [Lit "Total coverage is "; hours; Lit " hours, not 24"].

(** Verify 24-hour coverage. *)
Definition check_total (slots : list Slot) (errors : list message)
    : result (list message) :=
  let total_minutes := total_minutes slots in
  if bool_decide (total_minutes ≠ 24 * 60) then
    hours ← truediv (PyInt total_minutes) (PyInt 60);
    p ← fixed 1 hours;
    Ok (errors ++ [coverage_message p])
  else Ok errors.

(** The closing loop prints each slot; its [duration] is a true division. *)
Definition print_schedule (slots : list Slot) : result unit :=
  for_each slots
    (fun _ s =>
       duration ← truediv (PyInt (slot_end s - slot_start s)) (PyInt 60);
       _ ← fixed 1 duration;
       Ok tt)
    tt.

(** The show documents that loaded, in [show_files] order. *)
Definition loaded_shows (c : Config) : list Show :=
  omap snd (show_files c).

Definition schedule_coverage (shows : list Show) : result (list message) :=
  let errors := [] in
  (* Parse schedule times *)
  slots ← parse_schedule shows;
  (* Sort by start time *)
  let slots := sort_schedule slots in
  (* Check for gaps and overlaps *)
  let errors := check_adjacent slots errors in
  (* Verify 24-hour coverage *)
  errors ← check_total slots errors;
  _ ← print_schedule slots;
  Ok errors.

Definition validate_schedule_coverage (c : Config) : result (list message) :=
  schedule_coverage (loaded_shows c).

(** [validate_ai_budgets] *)
Definition tts_warning (show_id : string) (tts_budget : num) (expected : piece) : message :=
  [Str show_id; Lit ": TTS budget "; Num tts_budget;
   Lit "s differs from expected "; expected; Lit "s"].
Definition music_warning (show_id : string) (music_budget : num) (expected : piece) : message :=
  [Str show_id; Lit ": Music budget "; Num music_budget;
   Lit "min differs from expected "; expected; Lit "min"].

(** Calculate expected budgets. *)
Definition expected_tts (show : Show) : result num :=
  total_seconds ← mul (duration_hours (schedule show)) (PyInt 3600);
  mul total_seconds (talk_fraction (ratios show)).

Definition expected_music_mins (show : Show) : result num :=
  total_seconds ← mul (duration_hours (schedule show)) (PyInt 3600);
  music_seconds ← mul total_seconds (music_fraction (ratios show));
  truediv music_seconds (PyInt 60).

Definition check_budget (show : Show) (warnings : list message)
    : result (list message) :=
  let show_id := show_id show in
  let budget := ai_budget show in
  let tts_budget := max_tts_seconds_per_show budget in
  let music_budget := max_music_minutes_per_show budget in
  expected_tts ← expected_tts show;
  expected_music_mins ← expected_music_mins show;
  (* Check if budgets are reasonable *)
  tts_diff ← sub tts_budget expected_tts;
  warnings ←
    (if gt (abs tts_diff) (PyInt 60) then
       p ← fixed 0 expected_tts;
       Ok (warnings ++ [tts_warning show_id tts_budget p])
     else Ok warnings);
  music_diff ← sub music_budget expected_music_mins;
  if gt (abs music_diff) (PyInt 5) then
    p ← fixed 0 expected_music_mins;
    Ok (warnings ++ [music_warning show_id music_budget p])
  else Ok warnings.

Definition validate_ai_budgets (c : Config) : result (list message) :=
  for_each (loaded_shows c) (fun warnings show => check_budget show warnings) [].

(** [main]: the two lists and the exit status ([sys.exit(1)] on errors). *)
Record Report := {
  all_errors : list message;
  all_warnings : list message;
  exit_status : Z
}.

Definition main (c : Config) : result Report :=
  let all_errors := [] in
  let all_warnings := [] in
  let all_errors := all_errors ++ validate_json_syntax c in
  let all_errors := all_errors ++ validate_cross_references c in
  e ← validate_music_ratios c;
  let all_errors := all_errors ++ e in
  e ← validate_schedule_coverage c;
  let all_errors := all_errors ++ e in
  w ← validate_ai_budgets c;
  let all_warnings := all_warnings ++ w in
  Ok {| all_errors := all_errors;
        all_warnings := all_warnings;
        exit_status := match all_errors with [] => 0 | _ :: _ => 1 end |}.

(** * Properties of the checkers *)

(** ** The runtime model on known values *)

(** The doubles of the script's literals: [1.0] and [0.001]
    ([0x1.0624dd2f1a9fcp-10]). *)
Example literal_values :
  literal 1 1 = S754_finite false 4503599627370496 (-52) /\
  literal 1 1000 = S754_finite false 4611686018427388 (-62).
Proof. split; by vm_compute. Qed.

(** [float(z)] overflows from [2^1024 - 2^970] on: one below still rounds
    to the largest finite double. *)
Example overflow_threshold_rounding :
  binary_normalize prec emax (overflow_threshold - 1) 0 false
  = S754_finite false 9007199254740991 971 /\
  binary_normalize prec emax overflow_threshold 0 false = S754_infinity false /\
  round_ratio false (overflow_threshold * 60 - 1) 60
  = S754_finite false 9007199254740991 971 /\
  round_ratio false (overflow_threshold * 60) 60 = S754_infinity false.
Proof. repeat split; by vm_compute. Qed.

Example int_values :
  Py.int <$> ["08"; " 8 "; "+8"; "-1"; "1_0"; "007"]
  = [Ok 8; Ok 8; Ok 8; Ok (-1); Ok 10; Ok 7] /\
  Py.int <$> [""; "ab"; "_1"; "1_"; "1__0"; "+ 1"; "1 2"; "0x10"; "1.5"]
  = [Raise ValueError; Raise ValueError; Raise ValueError; Raise ValueError;
     Raise ValueError; Raise ValueError; Raise ValueError; Raise ValueError;
     Raise ValueError].
Proof. split; by vm_compute. Qed.

Example split_values :
  split ":" "08:30" = ["08"; "30"] /\
  split ":" "0830" = ["0830"] /\
  split ":" "" = [""] /\
  split ":" "1:2:3" = ["1"; "2"; "3"].
Proof. repeat split; by vm_compute. Qed.

(** ** Loops that append *)

Lemma bind_ok {A B : Type} (m : result A) (f : A -> result B) (a : A) :
  m = Ok a -> (m ≫= f) = f a.
Proof. intros ->. reflexivity. Qed.

Lemma bind_raise {A B : Type} (m : result A) (f : A -> result B) (e : exn) :
  m = Raise e -> (m ≫= f) = Raise e.
Proof. intros ->. reflexivity. Qed.

(** A loop that appends [f x] for the [x] satisfying [P] collects them all,
    in order, behind what was there. *)
Lemma foldl_append_filter {A B : Type} (P : B -> Prop) `{!∀ x, Decision (P x)}
    (f : B -> A) (l : list B) (acc : list A) :
  foldl (fun acc x => if bool_decide (P x) then acc ++ [f x] else acc) acc l
  = acc ++ (f <$> filter P l).
Proof.
  revert acc. induction l as [|x l IH]; intros acc; simpl.
  - by rewrite app_nil_r.
  - rewrite IH. rewrite filter_cons. case_bool_decide as HP.
    + rewrite decide_True by done. by rewrite fmap_cons, <- app_assoc.
    + by rewrite decide_False by done.
Qed.

Lemma foldl_append_each {A B : Type} (f : B -> list A) (l : list B) (acc : list A) :
  foldl (fun acc x => acc ++ f x) acc l = acc ++ mjoin (f <$> l).
Proof.
  revert acc. induction l as [|x l IH]; intros acc; simpl.
  - by rewrite app_nil_r.
  - by rewrite IH, <- app_assoc.
Qed.

Lemma for_each_cons {A S : Type} (x : A) (xs : list A) (body : S -> A -> result S) (s : S) :
  for_each (x :: xs) body s = (body s x ≫= for_each xs body).
Proof. reflexivity. Qed.

Lemma for_each_app {A S : Type} (xs ys : list A) (body : S -> A -> result S) (s : S) :
  for_each (xs ++ ys) body s = (for_each xs body s ≫= for_each ys body).
Proof.
  revert s. induction xs as [|x xs IH]; intros s; simpl; [done|].
  destruct (body s x) as [s'|e]; simpl; [apply IH | done].
Qed.

(** ** Sorting *)

Section SortingFacts.
Context {A : Type} (leb : A -> A -> bool).

Lemma insert_sorted_perm (x : A) (l : list A) :
  insert_sorted leb x l ≡ₚ x :: l.
Proof.
  induction l as [|y l IH]; simpl; [done|].
  destruct (leb x y); [done|].
  rewrite IH. apply Permutation_swap.
Qed.

Lemma sorted_perm (l : list A) : sorted leb l ≡ₚ l.
Proof.
  induction l as [|x l IH]; simpl; [done|].
  by rewrite insert_sorted_perm, IH.
Qed.

Lemma sorted_length (l : list A) : length (sorted leb l) = length l.
Proof. apply Permutation_length, sorted_perm. Qed.

(** A list already in order is left as it is. *)
Lemma sorted_ascending (l : list A) :
  Sorted (fun a b => leb a b = true) l -> sorted leb l = l.
Proof.
  induction 1 as [|x l Hs IH Hhd]; simpl; [done|].
  rewrite IH. destruct Hhd as [|y l Hxy]; simpl; [done|].
  by rewrite Hxy.
Qed.
End SortingFacts.

Lemma sort_schedule_perm (slots : list Slot) : sort_schedule slots ≡ₚ slots.
Proof. apply sorted_perm. Qed.

Lemma sort_schedule_ascending (slots : list Slot) :
  Sorted (fun a b => slot_start a <= slot_start b) slots ->
  sort_schedule slots = slots.
Proof.
  intros Hs. apply sorted_ascending.
  induction Hs as [|x l Hs IH Hhd]; constructor; [done|].
  destruct Hhd; constructor. by apply Z.leb_le.
Qed.

(** ** The adjacency pass, slot by slot *)

(** What one slot adds: its end against the expected end. *)
Definition compare_end (current : Slot) (expected_end : Z) (next_show : Slot)
    : list message :=
  if slot_end current <? expected_end then
    [gap_message (expected_end - slot_end current) current next_show]
  else if slot_end current >? expected_end then
    [overlap_message (slot_end current - expected_end) current next_show]
  else [].

(** The findings of the slots from some position on; [first] is the slot
    the last one wraps around to. *)
Fixpoint adjacent_findings (first : Slot) (slots : list Slot) : list message :=
  match slots with
  | [] => []
  | current :: rest =>
      match rest with
      | [] => compare_end current (24 * 60) first
      | next_show :: _ => compare_end current (slot_start next_show) next_show
      end ++ adjacent_findings first rest
  end.

Lemma check_adjacent_at_middle (first : Slot) (pre rest : list Slot)
    (current : Slot) (errors : list message) :
  head (pre ++ current :: rest) = Some first ->
  check_adjacent_at (pre ++ current :: rest) errors (length pre)
  = errors ++ match rest with
              | [] => compare_end current (24 * 60) first
              | next_show :: _ => compare_end current (slot_start next_show) next_show
              end.
Proof.
  intros Hfirst. unfold check_adjacent_at.
  rewrite list_lookup_middle by done.
  rewrite length_app. simpl length.
  destruct rest as [|next_show rest].
  - replace (length pre + 1)%nat with (length pre + 1 + 0)%nat at 1 by lia.
    simpl length.
    replace ((length pre + 1 + 0) mod (length pre + 1))%nat with 0%nat
      by (rewrite Nat.add_0_r; symmetry; apply Nat.Div0.mod_same).
    rewrite <- head_lookup, Hfirst.
    replace (length pre <? length pre + 1 - 1)%nat with false
      by (symmetry; apply Nat.ltb_ge; lia).
    unfold compare_end.
    destruct (slot_end current <? 24 * 60); [done|].
    destruct (slot_end current >? 24 * 60); [done|by rewrite app_nil_r].
  - simpl length.
    rewrite Nat.mod_small by lia.
    assert ((pre ++ current :: next_show :: rest) !! (length pre + 1)%nat
            = Some next_show) as ->.
    { rewrite lookup_app_r by lia.
      by replace (length pre + 1 - length pre)%nat with 1%nat by lia. }
    replace (length pre <? length pre + S (S (length rest)) - 1)%nat with true
      by (symmetry; apply Nat.ltb_lt; lia).
    unfold compare_end.
    destruct (slot_end current <? slot_start next_show); [done|].
    destruct (slot_end current >? slot_start next_show); [done|by rewrite app_nil_r].
Qed.

Lemma check_adjacent_from (first : Slot) (pre post : list Slot)
    (errors : list message) :
  head (pre ++ post) = Some first ->
  foldl (check_adjacent_at (pre ++ post)) errors (seq (length pre) (length post))
  = errors ++ adjacent_findings first post.
Proof.
  revert pre errors. induction post as [|current rest IH]; intros pre errors Hfirst.
  - simpl. by rewrite app_nil_r.
  - simpl seq. simpl foldl.
    rewrite (check_adjacent_at_middle first) by done.
    specialize (IH (pre ++ [current])).
    rewrite <- app_assoc in IH. simpl in IH.
    rewrite length_app in IH. simpl in IH.
    replace (length pre + 1)%nat with (S (length pre)) in IH by lia.
    rewrite IH by done.
    simpl. by rewrite <- app_assoc.
Qed.

(** The index loop computes the slot-by-slot findings. *)
Lemma check_adjacent_spec (slots : list Slot) (errors : list message) :
  check_adjacent slots errors
  = errors ++ match slots with
              | [] => []
              | first :: _ => adjacent_findings first slots
              end.
Proof.
  unfold check_adjacent. destruct slots as [|first rest].
  - simpl. by rewrite app_nil_r.
  - apply (check_adjacent_from first [] (first :: rest)). done.
Qed.

Lemma compare_end_nil (current next_show : Slot) (expected_end : Z) :
  compare_end current expected_end next_show = [] <-> slot_end current = expected_end.
Proof.
  unfold compare_end.
  destruct (Z.ltb_spec (slot_end current) expected_end);
    [|destruct (Z.gtb_spec (slot_end current) expected_end)];
    split; intros; try discriminate; try lia; done.
Qed.

(** Slots that follow one another: each ends where the next starts, from
    minute [from] to minute [to]. *)
Inductive contiguous : Z -> Z -> list Slot -> Prop :=
| contiguous_last (s : Slot) :
    contiguous (slot_start s) (slot_end s) [s]
| contiguous_cons (s : Slot) (rest : list Slot) (to : Z) :
    contiguous (slot_end s) to rest ->
    contiguous (slot_start s) to (s :: rest).

Lemma contiguous_from (from to : Z) (s : Slot) (rest : list Slot) :
  contiguous from to (s :: rest) -> from = slot_start s.
Proof. by inversion 1. Qed.

(** The adjacency pass is silent exactly on slots that follow one another
    up to the end of the day. *)
Lemma adjacent_findings_nil (first current : Slot) (rest : list Slot) :
  adjacent_findings first (current :: rest) = []
  <-> contiguous (slot_start current) (24 * 60) (current :: rest).
Proof.
  revert current. induction rest as [|next_show rest IH]; intros current.
  - simpl. rewrite app_nil_r, compare_end_nil. split.
    + intros <-. constructor.
    + inversion 1 as [|? ? ? Hrest]; [done|inversion Hrest].
  - change (adjacent_findings first (current :: next_show :: rest))
      with (compare_end current (slot_start next_show) next_show
            ++ adjacent_findings first (next_show :: rest)).
    split.
    + intros [Hend Hrest]%app_eq_nil.
      apply compare_end_nil in Hend. apply IH in Hrest.
      constructor. by rewrite Hend.
    + inversion 1 as [|? ? ? Hrest]; subst.
      pose proof (contiguous_from _ _ _ _ Hrest) as Hend.
      rewrite Hend in Hrest.
      by rewrite (proj2 (compare_end_nil _ _ _) Hend), (proj2 (IH _) Hrest).
Qed.

Lemma total_minutes_from (acc : Z) (slots : list Slot) :
  foldl (fun acc s => acc + (slot_end s - slot_start s)) acc slots
  = acc + total_minutes slots.
Proof.
  unfold total_minutes. revert acc.
  induction slots as [|s slots IH]; intros acc; simpl; [lia|].
  rewrite IH, (IH (0 + _)). lia.
Qed.

Lemma total_minutes_cons (s : Slot) (slots : list Slot) :
  total_minutes (s :: slots) = (slot_end s - slot_start s) + total_minutes slots.
Proof. unfold total_minutes at 1. simpl. by rewrite total_minutes_from. Qed.

(** The durations of slots that follow one another telescope. *)
Lemma total_minutes_contiguous (from to : Z) (slots : list Slot) :
  contiguous from to slots -> total_minutes slots = to - from.
Proof.
  induction 1 as [s|s rest to Hrest IH]; rewrite total_minutes_cons.
  - unfold total_minutes. simpl. lia.
  - rewrite IH. lia.
Qed.

Lemma contiguous_le (from to : Z) (slots : list Slot) :
  contiguous from to slots ->
  Forall (fun s => slot_start s <= slot_end s) slots ->
  from <= to.
Proof.
  induction 1 as [s|s rest to Hrest IH]; intros [Hs Hle]%Forall_cons.
  - done.
  - specialize (IH Hle). lia.
Qed.

Lemma contiguous_within (from to : Z) (slots : list Slot) :
  contiguous from to slots ->
  Forall (fun s => slot_start s <= slot_end s) slots ->
  Forall (fun s => from <= slot_start s /\ slot_end s <= to) slots.
Proof.
  induction 1 as [s|s rest to Hrest IH]; intros [Hs Hle]%Forall_cons.
  - constructor; [lia|constructor].
  - pose proof (contiguous_le _ _ _ Hrest Hle). constructor; [lia|].
    eapply Forall_impl; [exact (IH Hle)|]. simpl. intros; lia.
Qed.

(** ** True division by 60 *)

Lemma int_truediv_60 (a : Z) :
  Z.abs a < overflow_threshold * 60 -> exists f, int_truediv a 60 = Ok f.
Proof.
  intros Ha. unfold int_truediv.
  destruct a as [|p|p]; [by eexists| |];
    change (Z.abs 60) with 60;
    rewrite (proj2 (Z.leb_gt _ _) Ha); by eexists.
Qed.

Lemma truediv_60 (a : Z) :
  Z.abs a < overflow_threshold * 60 ->
  exists f, truediv (PyInt a) (PyInt 60) = Ok (PyFloat f).
Proof.
  intros Ha. destruct (int_truediv_60 _ Ha) as [f Hf].
  exists f. unfold truediv. by rewrite Hf.
Qed.

Lemma day_below_overflow : 24 * 60 < overflow_threshold * 60.
Proof. by vm_compute. Qed.

Lemma print_schedule_ok (slots : list Slot) :
  Forall (fun s => Z.abs (slot_end s - slot_start s) < overflow_threshold * 60) slots ->
  print_schedule slots = Ok tt.
Proof.
  unfold print_schedule. induction 1 as [|s slots Hs _ IH]; [done|].
  rewrite for_each_cons.
  destruct (truediv_60 _ Hs) as [f ->]. simpl. exact IH.
Qed.

Lemma check_total_ok (slots : list Slot) (errors : list message) :
  Z.abs (total_minutes slots) < overflow_threshold * 60 ->
  exists f,
    truediv (PyInt (total_minutes slots)) (PyInt 60) = Ok (PyFloat f) /\
    check_total slots errors
    = Ok (if bool_decide (total_minutes slots ≠ 24 * 60)
          then errors ++ [coverage_message (Fixed 1 f)]
          else errors).
Proof.
  intros Ht. destruct (truediv_60 _ Ht) as [f Hf].
  exists f. split; [done|]. unfold check_total.
  case_bool_decide; [|done]. by rewrite Hf.
Qed.

Lemma check_total_silent (slots : list Slot) (errors : list message) :
  check_total slots errors = Ok [] ->
  errors = [] /\ total_minutes slots = 24 * 60.
Proof.
  unfold check_total. case_bool_decide as Htotal.
  - destruct (truediv _ _) as [hours|e]; simpl; [|done].
    destruct (fixed 1 hours) as [p|e]; simpl; [|done].
    intros [= Happ]. by apply app_eq_nil in Happ as [_ ?].
  - intros [= ->]. split; [done|]. by destruct (decide (total_minutes slots = 24 * 60)).
Qed.

(** A total too large to divide into a float stops the total check. *)
Lemma truediv_60_overflow (a : Z) :
  overflow_threshold * 60 <= Z.abs a ->
  truediv (PyInt a) (PyInt 60) = Raise OverflowError.
Proof.
  intros Ha. pose proof day_below_overflow.
  unfold truediv, int_truediv.
  destruct a as [|p|p]; [simpl in Ha; lia| |];
    change (Z.abs 60) with 60;
    by rewrite (proj2 (Z.leb_le _ _) Ha).
Qed.

(** What the total check does after a clean adjacency pass, by the total. *)
Lemma check_total_cases (slots : list Slot) :
  (total_minutes slots = 24 * 60 -> check_total slots [] = Ok []) /\
  (total_minutes slots <> 24 * 60 ->
   Z.abs (total_minutes slots) < overflow_threshold * 60 ->
   exists hours,
     truediv (PyInt (total_minutes slots)) (PyInt 60) = Ok (PyFloat hours) /\
     check_total slots [] = Ok [coverage_message (Fixed 1 hours)]) /\
  (overflow_threshold * 60 <= Z.abs (total_minutes slots) ->
   check_total slots [] = Raise OverflowError).
Proof.
  split; [|split].
  - intros Htotal. unfold check_total. by rewrite bool_decide_eq_false_2 by lia.
  - intros Htotal Hsmall.
    destruct (check_total_ok slots [] Hsmall) as (hours & Hhours & Hcheck).
    exists hours. split; [done|].
    by rewrite Hcheck, bool_decide_eq_true_2.
  - intros Hlarge. pose proof day_below_overflow.
    unfold check_total. rewrite bool_decide_eq_true_2 by lia.
    by rewrite truediv_60_overflow.
Qed.

(** ** Parsing the times *)

Lemma int_raises (s : string) (e : exn) : Py.int s = Raise e -> e = ValueError.
Proof.
  unfold Py.int.
  destruct (match strip (list_ascii_of_string s) with
            | [] => _ | c :: rest => _ end) as [negative ds].
  destruct (digits 0 Nothing ds); congruence.
Qed.

Lemma unpack2_int_raises (parts : list string) (e : exn) :
  unpack2_int parts = Raise e -> e = ValueError.
Proof.
  unfold unpack2_int.
  destruct parts as [|a [|b [|c parts]]]; try congruence.
  destruct (Py.int a) eqn:Ha; simpl; [|intros [= <-]; by eapply int_raises].
  destruct (Py.int b) eqn:Hb; simpl; [done|intros [= <-]; by eapply int_raises].
Qed.

(** The only exception of the parsing loop is [ValueError]. *)
Lemma parse_show_raises (show : Show) (e : exn) :
  parse_show show = Raise e -> e = ValueError.
Proof.
  unfold parse_show.
  destruct (unpack2_int (split ":" (start_time_utc (schedule show))))
    as [[start_hour start_min]|e1] eqn:Hstart; simpl;
    [|intros [= <-]; by eapply unpack2_int_raises].
  destruct (unpack2_int (split ":" (end_time_utc (schedule show))))
    as [[end_hour end_min]|e2] eqn:Hend; simpl;
    [done|intros [= <-]; by eapply unpack2_int_raises].
Qed.

Lemma parse_show_ok (show : Show) (start_hour start_min end_hour end_min : Z) :
  unpack2_int (split ":" (start_time_utc (schedule show))) = Ok (start_hour, start_min) ->
  unpack2_int (split ":" (end_time_utc (schedule show))) = Ok (end_hour, end_min) ->
  parse_show show
  = Ok {| slot_id := show_id show;
          slot_start := start_hour * 60 + start_min;
          slot_end := if bool_decide (end_time_utc (schedule show) ≠ "00:00")
                      then end_hour * 60 + end_min
                      else 24 * 60 |}.
Proof. intros Hstart Hend. unfold parse_show. by rewrite Hstart, Hend. Qed.

Definition parse_body (slots : list Slot) (show : Show) : result (list Slot) :=
  s ← parse_show show; Ok (slots ++ [s]).

Lemma parse_body_ok (slots : list Slot) (show : Show) (s : Slot) :
  parse_show show = Ok s -> parse_body slots show = Ok (slots ++ [s]).
Proof. intros H. unfold parse_body. by rewrite H. Qed.

Lemma parse_body_raises (slots : list Slot) (show : Show) (e : exn) :
  parse_show show = Raise e -> parse_body slots show = Raise ValueError.
Proof.
  intros H. unfold parse_body. rewrite H.
  by rewrite (parse_show_raises _ _ H).
Qed.

Lemma parse_schedule_unfold (shows : list Show) :
  parse_schedule shows = for_each shows parse_body [].
Proof. reflexivity. Qed.

(** The loop keeps one slot per show, in the order of the shows. *)
Lemma parse_loop_ok (shows : list Show) (acc slots : list Slot) :
  for_each shows parse_body acc = Ok slots <->
  exists new, slots = acc ++ new /\
              Forall2 (fun show s => parse_show show = Ok s) shows new.
Proof.
  revert acc. induction shows as [|show shows IH]; intros acc.
  - simpl. split.
    + intros [= <-]. exists []. by rewrite app_nil_r.
    + intros (new & -> & Hnew). inversion Hnew. by rewrite app_nil_r.
  - rewrite for_each_cons.
    destruct (parse_show show) as [s|e] eqn:Hshow.
    + rewrite (parse_body_ok _ _ _ Hshow). simpl.
      rewrite IH. split.
      * intros (new & -> & Hnew). exists (s :: new).
        rewrite <- app_assoc. split; [done|by constructor].
      * intros (new & -> & Hnew).
        inversion Hnew as [|? s' ? new' Hs Hnew']; subst.
        exists new'. rewrite <- app_assoc.
        replace s' with s by congruence. done.
    + rewrite (parse_body_raises _ _ _ Hshow). simpl.
      split; [done|]. intros (new & _ & Hnew).
      inversion Hnew; congruence.
Qed.

Lemma parse_schedule_ok (shows : list Show) (slots : list Slot) :
  parse_schedule shows = Ok slots <->
  Forall2 (fun show s => parse_show show = Ok s) shows slots.
Proof.
  rewrite parse_schedule_unfold, parse_loop_ok. split.
  - by intros (new & -> & Hnew).
  - intros Hnew. by exists slots.
Qed.

(** One show that does not parse stops the loop with [ValueError]. *)
Lemma parse_loop_raises (shows : list Show) (acc : list Slot) (show : Show) (e : exn) :
  show ∈ shows -> parse_show show = Raise e ->
  for_each shows parse_body acc = Raise ValueError.
Proof.
  intros Hin Hshow. revert acc.
  induction shows as [|x shows IH]; intros acc; [by apply elem_of_nil in Hin|].
  rewrite for_each_cons.
  destruct (parse_show x) as [s|e'] eqn:Hx.
  - rewrite (parse_body_ok _ _ _ Hx). simpl.
    apply elem_of_cons in Hin as [->|Hin]; [congruence|by apply IH].
  - by rewrite (parse_body_raises _ _ _ Hx).
Qed.

(** Once the times are parsed, the checker works on the sorted slots. *)
Lemma schedule_coverage_parsed (shows : list Show) (slots : list Slot) :
  parse_schedule shows = Ok slots ->
  schedule_coverage shows
  = (errors ← check_total (sort_schedule slots)
                (check_adjacent (sort_schedule slots) []);
     _ ← print_schedule (sort_schedule slots);
     Ok errors).
Proof. intros H. unfold schedule_coverage. by rewrite H. Qed.

(** ** Sample shows for the concrete cases *)

Definition sample_show (id start_time end_time : string) : Show :=
  {| show_id := id;
     presenters := {| primary_duo := ["alex"; "sam"] |};
     topics := {| primary_tags := ["weather"] |};
     ratios := {| music_fraction := PyFloat (literal 6 10);
                  talk_fraction := PyFloat (literal 4 10) |};
     schedule := {| start_time_utc := start_time;
                    end_time_utc := end_time;
                    duration_hours := PyInt 3 |};
     ai_budget := {| max_tts_seconds_per_show := PyInt 4320;
                     max_music_minutes_per_show := PyInt 108 |} |}.

(** ** Schedule coverage *)

(** The slots in sorted order form an exact circular partition of the day:
    ascending starts, the first at minute 0, each end the next start, the
    last end at minute 1440. *)
Definition circular_partition (slots : list Slot) : Prop :=
  Sorted (fun a b => slot_start a <= slot_start b) slots /\
  contiguous 0 (24 * 60) slots.

(** Slots that already are such a partition in file order stay in place
    when sorted. *)
Lemma circular_partition_sorted (slots : list Slot) :
  circular_partition slots -> sort_schedule slots = slots.
Proof. intros [Hsorted _]. by apply sort_schedule_ascending. Qed.

(** C1. For shows whose slots, sorted by start, form an exact circular
    partition of the day, the adjacency pass adds no gap and no overlap
    finding, the total coverage is 1440 minutes and the coverage check adds
    no error; the checker then returns no finding at all (no slot being
    inverted, its closing report completes). *)
Theorem partition_no_findings (shows : list Show) (slots : list Slot) :
  parse_schedule shows = Ok slots ->
  circular_partition (sort_schedule slots) ->
  check_adjacent (sort_schedule slots) [] = [] /\
  total_minutes (sort_schedule slots) = 24 * 60 /\
  check_total (sort_schedule slots) [] = Ok [] /\
  (Forall (fun s => slot_start s <= slot_end s) slots ->
   schedule_coverage shows = Ok []).
Proof.
  intros Hparse [Hsorted Hchain].
  assert (Hadj : check_adjacent (sort_schedule slots) [] = []).
  { rewrite check_adjacent_spec. simpl.
    destruct (sort_schedule slots) as [|first rest] eqn:Hs; [done|].
    apply adjacent_findings_nil.
    by rewrite <- (contiguous_from _ _ _ _ Hchain). }
  assert (Htotal : total_minutes (sort_schedule slots) = 24 * 60).
  { rewrite (total_minutes_contiguous _ _ _ Hchain). lia. }
  assert (Hcheck : check_total (sort_schedule slots) [] = Ok []).
  { unfold check_total. rewrite Htotal. by rewrite bool_decide_false by tauto. }
  repeat split; try done.
  intros Hle. unfold schedule_coverage.
  rewrite Hparse. simpl. rewrite Hadj, Hcheck. simpl.
  rewrite print_schedule_ok; [done|].
  assert (Hle' : Forall (fun s => slot_start s <= slot_end s) (sort_schedule slots)).
  { by rewrite sort_schedule_perm. }
  pose proof (contiguous_within _ _ _ Hchain Hle') as Hin.
  rewrite Forall_forall in Hin, Hle'. apply Forall_forall. intros s Hs.
  specialize (Hin s Hs). specialize (Hle' s Hs). simpl in *.
  pose proof day_below_overflow. lia.
Qed.

(** A day of two shows, enumerated out of order. *)
Lemma partition_no_findings_witness :
  schedule_coverage [sample_show "evening" "12:00" "00:00";
                     sample_show "morning" "00:00" "12:00"] = Ok [].
Proof.
  refine (proj2 (proj2 (proj2 (partition_no_findings
    [sample_show "evening" "12:00" "00:00"; sample_show "morning" "00:00" "12:00"]
    [{| slot_id := "evening"; slot_start := 720; slot_end := 1440 |};
     {| slot_id := "morning"; slot_start := 0; slot_end := 720 |}]
    _ _))) _).
  - reflexivity.
  - split.
    + repeat constructor; simpl; lia.
    + vm_compute. apply (contiguous_cons {| slot_id := "morning"; slot_start := 0; slot_end := 720 |}).
      apply (contiguous_last {| slot_id := "evening"; slot_start := 720; slot_end := 1440 |}).
  - repeat constructor; simpl; lia.
Defined.

Lemma parse_schedule_length (shows : list Show) (slots : list Slot) :
  parse_schedule shows = Ok slots -> length slots = length shows.
Proof.
  intros H%parse_schedule_ok. symmetry. by eapply Forall2_length.
Qed.

(** C2, as stated, fails: one show from 08:00 to midnight passes the
    adjacency pass without a finding, yet its total is 960 minutes and the
    coverage error is reported. *)
Lemma late_start_clean_but_short :
  parse_schedule [sample_show "late" "08:00" "00:00"]
  = Ok [{| slot_id := "late"; slot_start := 480; slot_end := 1440 |}] /\
  check_adjacent
    (sort_schedule [{| slot_id := "late"; slot_start := 480; slot_end := 1440 |}]) []
  = [] /\
  total_minutes
    (sort_schedule [{| slot_id := "late"; slot_start := 480; slot_end := 1440 |}])
  = 960 /\
  schedule_coverage [sample_show "late" "08:00" "00:00"]
  = Ok [coverage_message (Fixed 1 (literal 16 1))].
Proof. repeat split; by vm_compute. Qed.

(** C2, amended. When the adjacency pass over the sorted slots of a
    non-empty show set adds no finding, the total coverage is 1440 minus the
    start of the first sorted slot; it is 1440, and the total check returns
    without adding the coverage error, exactly when that slot starts at
    minute 0.  Otherwise the total check adds the coverage error, or raises
    [OverflowError] when the total is too large in magnitude to divide into
    a float; in neither case does the checker return an empty list. *)
Theorem clean_adjacency_total (shows : list Show) (slots : list Slot) :
  shows ≠ [] ->
  parse_schedule shows = Ok slots ->
  check_adjacent (sort_schedule slots) [] = [] ->
  exists first rest,
    sort_schedule slots = first :: rest /\
    total_minutes (sort_schedule slots) = 24 * 60 - slot_start first /\
    (total_minutes (sort_schedule slots) = 24 * 60 <-> slot_start first = 0) /\
    (check_total (sort_schedule slots) (check_adjacent (sort_schedule slots) [])
     = Ok [] <-> slot_start first = 0) /\
    (slot_start first <> 0 ->
     Z.abs (24 * 60 - slot_start first) < overflow_threshold * 60 ->
     exists hours,
       truediv (PyInt (24 * 60 - slot_start first)) (PyInt 60) = Ok (PyFloat hours) /\
       check_total (sort_schedule slots) (check_adjacent (sort_schedule slots) [])
       = Ok [coverage_message (Fixed 1 hours)]) /\
    (overflow_threshold * 60 <= Z.abs (24 * 60 - slot_start first) ->
     check_total (sort_schedule slots) (check_adjacent (sort_schedule slots) [])
     = Raise OverflowError) /\
    (schedule_coverage shows = Ok [] -> slot_start first = 0).
Proof.
  intros Hne Hparse Hadj.
  destruct (sort_schedule slots) as [|first rest] eqn:Hsorted.
  - apply parse_schedule_length in Hparse.
    apply (f_equal length) in Hsorted.
    unfold sort_schedule in Hsorted. rewrite sorted_length in Hsorted.
    destruct shows; [done|]. simpl in *. lia.
  - exists first, rest. split; [done|].
    pose proof Hadj as Hclean.
    rewrite check_adjacent_spec in Hclean. simpl app in Hclean.
    apply adjacent_findings_nil in Hclean.
    pose proof (total_minutes_contiguous _ _ _ Hclean) as Htotal.
    destruct (check_total_cases (first :: rest)) as (Hfull & Hshort & Hlarge).
    pose proof day_below_overflow as Hday.
    assert (Hsilent : check_total (first :: rest) [] = Ok [] <-> slot_start first = 0).
    { split.
      - intros Hcheck. apply check_total_silent in Hcheck as [_ Hcheck]. lia.
      - intros Hstart. apply Hfull. lia. }
    rewrite Hadj, Htotal in *.
    split; [done|]. split; [lia|]. split; [done|]. split; [|split].
    + intros Hstart Hsmall. apply Hshort; [lia|done].
    + done.
    + intros Hcoverage. rewrite (schedule_coverage_parsed _ _ Hparse) in Hcoverage.
      rewrite Hsorted, Hadj in Hcoverage.
      destruct (check_total (first :: rest) []) as [errors|e] eqn:Hcheck;
        simpl in Hcoverage; [|done].
      destruct (print_schedule _) as [[]|e]; simpl in Hcoverage; [|done].
      injection Hcoverage as ->. by apply Hsilent.
Qed.

(** The slot of the show from 08:00 to midnight. *)
Definition late_slots : list Slot :=
  [{| slot_id := "late"; slot_start := 480; slot_end := 1440 |}].

Lemma clean_adjacency_total_witness :
  exists first rest,
    sort_schedule late_slots = first :: rest /\
    total_minutes (sort_schedule late_slots) = 24 * 60 - slot_start first /\
    (total_minutes (sort_schedule late_slots) = 24 * 60 <-> slot_start first = 0) /\
    (check_total (sort_schedule late_slots) (check_adjacent (sort_schedule late_slots) [])
     = Ok [] <-> slot_start first = 0) /\
    (slot_start first <> 0 ->
     Z.abs (24 * 60 - slot_start first) < overflow_threshold * 60 ->
     exists hours,
       truediv (PyInt (24 * 60 - slot_start first)) (PyInt 60) = Ok (PyFloat hours) /\
       check_total (sort_schedule late_slots) (check_adjacent (sort_schedule late_slots) [])
       = Ok [coverage_message (Fixed 1 hours)]) /\
    (overflow_threshold * 60 <= Z.abs (24 * 60 - slot_start first) ->
     check_total (sort_schedule late_slots) (check_adjacent (sort_schedule late_slots) [])
     = Raise OverflowError) /\
    (schedule_coverage [sample_show "late" "08:00" "00:00"] = Ok [] ->
     slot_start first = 0).
Proof.
  apply (clean_adjacency_total [sample_show "late" "08:00" "00:00"] late_slots).
  - discriminate.
  - reflexivity.
  - reflexivity.
Defined.

(** ** The midnight sentinel *)

(** C5. An end time of exactly "00:00" becomes minute 1440, a start time of
    "00:00" becomes minute 0, and a single show from "00:00" to "00:00" is
    a full day: no gap, no overlap, a total of 1440 and no finding. *)
Theorem midnight_end_is_end_of_day :
  (forall (show : Show) (start_hour start_min : Z),
     end_time_utc (schedule show) = "00:00" ->
     unpack2_int (split ":" (start_time_utc (schedule show)))
     = Ok (start_hour, start_min) ->
     parse_show show
     = Ok {| slot_id := show_id show;
             slot_start := start_hour * 60 + start_min;
             slot_end := 1440 |}) /\
  (forall (show : Show) (slot : Slot),
     start_time_utc (schedule show) = "00:00" ->
     parse_show show = Ok slot ->
     slot_start slot = 0) /\
  (forall show : Show,
     start_time_utc (schedule show) = "00:00" ->
     end_time_utc (schedule show) = "00:00" ->
     let slot := {| slot_id := show_id show; slot_start := 0; slot_end := 1440 |} in
     parse_schedule [show] = Ok [slot] /\
     check_adjacent (sort_schedule [slot]) [] = [] /\
     total_minutes (sort_schedule [slot]) = 1440 /\
     schedule_coverage [show] = Ok []).
Proof.
  split; [|split].
  - intros show start_hour start_min Hend Hstart.
    unfold parse_show. rewrite Hstart, Hend. reflexivity.
  - intros show slot Hstart. unfold parse_show. rewrite Hstart.
    change (unpack2_int (split ":" "00:00")) with (Ok (0, 0)). simpl.
    destruct (unpack2_int _) as [[end_hour end_min]|e]; simpl; [|done].
    by intros [= <-].
  - intros show Hstart Hend slot.
    assert (Hparse : parse_schedule [show] = Ok [slot]).
    { unfold parse_schedule. rewrite for_each_cons.
      unfold parse_show. rewrite Hstart, Hend. reflexivity. }
    repeat split; try done.
    unfold schedule_coverage. rewrite Hparse. by vm_compute.
Qed.

Lemma midnight_end_is_end_of_day_witness :
  parse_show (sample_show "all-day" "00:00" "00:00")
  = Ok {| slot_id := "all-day"; slot_start := 0 * 60 + 0; slot_end := 1440 |} /\
  schedule_coverage [sample_show "all-day" "00:00" "00:00"] = Ok [].
Proof.
  split.
  - apply (proj1 midnight_end_is_end_of_day (sample_show "all-day" "00:00" "00:00"));
      reflexivity.
  - apply (proj2 (proj2 midnight_end_is_end_of_day)
             (sample_show "all-day" "00:00" "00:00")); reflexivity.
Defined.

(** ** What the schedule checker can report *)

Lemma append_empty_r (s : string) : s +:+ "" = s.
Proof.
  induction s as [|c s IH]; [done|].
  change (String c (s +:+ "") = String c s). by rewrite IH.
Qed.

Lemma render_gap (gap : Z) (current next_show : Slot) :
  render (gap_message gap current next_show)
  = Some ("Gap of " +:+ str_of_int gap +:+ " minutes between "
          +:+ slot_id current +:+ " and " +:+ slot_id next_show).
Proof. simpl. by rewrite append_empty_r. Qed.

Lemma render_overlap (overlap : Z) (current next_show : Slot) :
  render (overlap_message overlap current next_show)
  = Some ("Overlap of " +:+ str_of_int overlap +:+ " minutes between "
          +:+ slot_id current +:+ " and " +:+ slot_id next_show).
Proof. simpl. by rewrite append_empty_r. Qed.

(** The three findings of the checker: a gap or an overlap between a slot
    and its neighbour, and the total. *)
Inductive schedule_finding : message -> Prop :=
| finding_gap (gap : Z) (current next_show : Slot) :
    0 < gap -> schedule_finding (gap_message gap current next_show)
| finding_overlap (overlap : Z) (current next_show : Slot) :
    0 < overlap -> schedule_finding (overlap_message overlap current next_show)
| finding_total (hours : piece) :
    schedule_finding (coverage_message hours).

Lemma compare_end_findings (current next_show : Slot) (expected_end : Z) :
  Forall schedule_finding (compare_end current expected_end next_show).
Proof.
  unfold compare_end.
  destruct (Z.ltb_spec (slot_end current) expected_end);
    [|destruct (Z.gtb_spec (slot_end current) expected_end)];
    repeat constructor; lia.
Qed.

Lemma adjacent_findings_kind (first : Slot) (slots : list Slot) :
  Forall schedule_finding (adjacent_findings first slots).
Proof.
  induction slots as [|current rest IH]; simpl; [constructor|].
  apply Forall_app. split; [|done].
  destruct rest; apply compare_end_findings.
Qed.

Lemma check_adjacent_kind (slots : list Slot) :
  Forall schedule_finding (check_adjacent slots []).
Proof.
  rewrite check_adjacent_spec. simpl.
  destruct slots; [constructor|apply adjacent_findings_kind].
Qed.

Lemma check_total_kind (slots : list Slot) (errors errors' : list message) :
  Forall schedule_finding errors ->
  check_total slots errors = Ok errors' ->
  Forall schedule_finding errors'.
Proof.
  intros Herrors. unfold check_total. case_bool_decide; [|by intros [= <-]].
  destruct (truediv _ _) as [hours|e]; simpl; [|done].
  destruct (fixed 1 hours) as [p|e]; simpl; [|done].
  intros [= <-]. apply Forall_app. split; [done|].
  repeat constructor.
Qed.

(** Every finding of the schedule checker is one of the three. *)
Lemma schedule_coverage_kind (shows : list Show) (errors : list message) :
  schedule_coverage shows = Ok errors -> Forall schedule_finding errors.
Proof.
  unfold schedule_coverage.
  destruct (parse_schedule shows) as [slots|e]; simpl; [|done].
  destruct (check_total _ _) as [errors'|e] eqn:Htotal; simpl; [|done].
  destruct (print_schedule _) as [[]|e]; simpl; [|done].
  intros [= <-]. eapply check_total_kind; [|exact Htotal].
  apply check_adjacent_kind.
Qed.

(** The total does not depend on the order of the slots. *)
Lemma total_minutes_perm (l1 l2 : list Slot) :
  l1 ≡ₚ l2 -> total_minutes l1 = total_minutes l2.
Proof.
  induction 1 as [|s l1 l2 _ IH|s1 s2 l|l1 l2 l3 _ IH1 _ IH2].
  - done.
  - by rewrite !total_minutes_cons, IH.
  - rewrite !total_minutes_cons. lia.
  - congruence.
Qed.

Lemma total_minutes_app (l1 l2 : list Slot) :
  total_minutes (l1 ++ l2) = total_minutes l1 + total_minutes l2.
Proof.
  induction l1 as [|s l1 IH]; simpl; [by unfold total_minutes|].
  rewrite !total_minutes_cons, IH. lia.
Qed.

Lemma total_minutes_sorted_with (slot : Slot) (before after : list Slot) :
  total_minutes (sort_schedule (before ++ slot :: after))
  = total_minutes (sort_schedule (before ++ after))
    + (slot_end slot - slot_start slot).
Proof.
  rewrite !(total_minutes_perm _ _ (sort_schedule_perm _)).
  rewrite !total_minutes_app, total_minutes_cons. lia.
Qed.

(** C9. A show whose end time is earlier in the day than its start time,
    and is not the "00:00" sentinel, becomes a slot with its end before its
    start; the slot enters the total with a negative amount, and the checker
    has no finding for the inversion: all it reports are gaps and overlaps
    between neighbours and the total. *)
Theorem inverted_interval_unreported (show : Show)
    (start_hour start_min end_hour end_min : Z) :
  unpack2_int (split ":" (start_time_utc (schedule show)))
  = Ok (start_hour, start_min) ->
  unpack2_int (split ":" (end_time_utc (schedule show)))
  = Ok (end_hour, end_min) ->
  end_time_utc (schedule show) ≠ "00:00" ->
  end_hour * 60 + end_min < start_hour * 60 + start_min ->
  exists slot : Slot,
    parse_show show = Ok slot /\
    slot_end slot < slot_start slot /\
    slot_end slot - slot_start slot < 0 /\
    (forall before after : list Slot,
       total_minutes (sort_schedule (before ++ slot :: after))
       = total_minutes (sort_schedule (before ++ after))
         + (slot_end slot - slot_start slot)) /\
    (forall (shows : list Show) (errors : list message),
       show ∈ shows ->
       schedule_coverage shows = Ok errors ->
       Forall schedule_finding errors).
Proof.
  intros Hstart Hend Hsentinel Hlt.
  eexists. split; [by apply parse_show_ok|].
  rewrite bool_decide_true by done. simpl.
  repeat split; try lia.
  - intros before after. apply total_minutes_sorted_with.
  - intros shows errors _. apply schedule_coverage_kind.
Qed.

(** The show from 23:00 to 01:00, alone: a slot from minute 1380 to minute
    60, reported as a gap with itself and a total of -22 hours. *)
Lemma inverted_interval_unreported_witness :
  (exists slot : Slot,
     parse_show (sample_show "night" "23:00" "01:00") = Ok slot /\
     slot_end slot < slot_start slot /\
     slot_end slot - slot_start slot < 0 /\
     (forall before after : list Slot,
        total_minutes (sort_schedule (before ++ slot :: after))
        = total_minutes (sort_schedule (before ++ after))
          + (slot_end slot - slot_start slot)) /\
     (forall (shows : list Show) (errors : list message),
        sample_show "night" "23:00" "01:00" ∈ shows ->
        schedule_coverage shows = Ok errors ->
        Forall schedule_finding errors)) /\
  schedule_coverage [sample_show "night" "23:00" "01:00"]
  = Ok [gap_message 1380
          {| slot_id := "night"; slot_start := 1380; slot_end := 60 |}
          {| slot_id := "night"; slot_start := 1380; slot_end := 60 |};
        coverage_message (Fixed 1 (literal (-22) 1))].
Proof.
  split.
  - apply (inverted_interval_unreported (sample_show "night" "23:00" "01:00") 23 0 1 0).
    + reflexivity.
    + reflexivity.
    + discriminate.
    + lia.
  - by vm_compute.
Defined.

Lemma parse_show_id (show : Show) (slot : Slot) :
  parse_show show = Ok slot -> slot_id slot = show_id show.
Proof.
  unfold parse_show.
  destruct (unpack2_int (split ":" (start_time_utc (schedule show))))
    as [[start_hour start_min]|e]; simpl; [|done].
  destruct (unpack2_int (split ":" (end_time_utc (schedule show))))
    as [[end_hour end_min]|e]; simpl; [|done].
  by intros [= <-].
Qed.

(** The finding of a single slot that does not end at minute 1440. *)
Definition own_neighbour_finding (slot : Slot) : message :=
  if slot_end slot <? 24 * 60
  then gap_message (24 * 60 - slot_end slot) slot slot
  else overlap_message (slot_end slot - 24 * 60) slot slot.

(** C10. With one show loaded whose slot does not end at minute 1440, the
    adjacency pass adds exactly one finding, a gap or an overlap whose two
    endpoints are that same show: index [(0 + 1) mod 1] is the slot itself.
    Nothing else but the total-coverage error can follow it. *)
Theorem single_show_own_neighbour (show : Show) (slot : Slot) :
  parse_show show = Ok slot ->
  slot_end slot ≠ 24 * 60 ->
  check_adjacent (sort_schedule [slot]) [] = [own_neighbour_finding slot] /\
  render (own_neighbour_finding slot)
  = Some ((if slot_end slot <? 24 * 60
           then "Gap of " +:+ str_of_int (24 * 60 - slot_end slot)
           else "Overlap of " +:+ str_of_int (slot_end slot - 24 * 60))
          +:+ " minutes between " +:+ show_id show +:+ " and " +:+ show_id show) /\
  (Z.abs (slot_end slot - slot_start slot) < overflow_threshold * 60 ->
   exists coverage : list message,
     schedule_coverage [show] = Ok (own_neighbour_finding slot :: coverage) /\
     Forall (fun m => exists hours, m = coverage_message hours) coverage).
Proof.
  intros Hparse Hend.
  assert (Hadj : check_adjacent (sort_schedule [slot]) [] = [own_neighbour_finding slot]).
  { rewrite check_adjacent_spec. simpl. rewrite app_nil_r.
    unfold compare_end, own_neighbour_finding.
    destruct (Z.ltb_spec (slot_end slot) (24 * 60)); [done|].
    destruct (Z.gtb_spec (slot_end slot) (24 * 60)); [done|lia]. }
  split; [done|]. split.
  - unfold own_neighbour_finding. rewrite <- (parse_show_id _ _ Hparse).
    destruct (slot_end slot <? 24 * 60).
    + apply render_gap.
    + apply render_overlap.
  - intros Hsmall.
    assert (Hslots : parse_schedule [show] = Ok [slot])
      by (apply parse_schedule_ok; by repeat constructor).
    rewrite (schedule_coverage_parsed _ _ Hslots), Hadj.
    assert (Htotal : total_minutes (sort_schedule [slot])
                     = slot_end slot - slot_start slot).
    { simpl. rewrite total_minutes_cons. unfold total_minutes. simpl. lia. }
    destruct (check_total_ok (sort_schedule [slot]) [own_neighbour_finding slot])
      as (f & _ & ->); [by rewrite Htotal|].
    rewrite print_schedule_ok by (simpl; by repeat constructor).
    simpl. case_bool_decide.
    + eexists. split; [done|]. repeat constructor. by eexists.
    + exists []. split; [done|constructor].
Qed.

(** A single hour of programme: a gap of 1380 minutes between the show and
    itself. *)
Lemma single_show_own_neighbour_witness :
  check_adjacent
    (sort_schedule [{| slot_id := "lunch"; slot_start := 720; slot_end := 780 |}]) []
  = [gap_message 660
       {| slot_id := "lunch"; slot_start := 720; slot_end := 780 |}
       {| slot_id := "lunch"; slot_start := 720; slot_end := 780 |}] /\
  render
    (gap_message 660
       {| slot_id := "lunch"; slot_start := 720; slot_end := 780 |}
       {| slot_id := "lunch"; slot_start := 720; slot_end := 780 |})
  = Some "Gap of 660 minutes between lunch and lunch".
Proof.
  pose proof (single_show_own_neighbour
                (sample_show "lunch" "12:00" "13:00")
                {| slot_id := "lunch"; slot_start := 720; slot_end := 780 |}
                eq_refl ltac:(simpl; lia)) as (Hadj & Hrender & _).
  split; [exact Hadj|exact Hrender].
Defined.

(** ** Malformed times *)

(** An ASCII time string the parsing loop cannot take: it does not split
    at ":" into exactly two literals that [int()] accepts. *)
Definition unparsable (time : string) : Prop :=
  ascii_text time /\ exists e, unpack2_int (split ":" time) = Raise e.

(** A short ASCII time string the parsing loop takes: it splits at ":" into
    exactly two literals that [int()] accepts. *)
Definition parsable (time : string) : Prop :=
  ascii_text time /\ short_text time /\
  exists hour minute, unpack2_int (split ":" time) = Ok (hour, minute).

Lemma parse_show_unparsable (show : Show) :
  unparsable (start_time_utc (schedule show)) \/
  unparsable (end_time_utc (schedule show)) ->
  parse_show show = Raise ValueError.
Proof.
  unfold parse_show.
  intros [[_ [e He]]|[_ [e He]]].
  - rewrite He. simpl. by rewrite (unpack2_int_raises _ _ He).
  - destruct (unpack2_int (split ":" (start_time_utc (schedule show))))
      as [[start_hour start_min]|e1] eqn:Hstart; simpl.
    + rewrite He. simpl. by rewrite (unpack2_int_raises _ _ He).
    + by rewrite (unpack2_int_raises _ _ Hstart).
Qed.

Lemma parse_show_parsable (show : Show) :
  parsable (start_time_utc (schedule show)) ->
  parsable (end_time_utc (schedule show)) ->
  exists slot, parse_show show = Ok slot.
Proof.
  intros (_ & _ & start_hour & start_min & Hstart)
         (_ & _ & end_hour & end_min & Hend).
  eexists. by apply parse_show_ok.
Qed.

(** C3, as stated, fails.  A start time "ab:cd" is not reported as a finding
    for its show: [ValueError] leaves the checker, and the well-formed show
    next to it is not processed.  And times that are not zero-padded HH:MM
    within 00:00-23:59 but that [int()] accepts, such as "8:5" and "24:30",
    are not reported either: the show enters the coverage math. *)
Lemma malformed_time_not_isolated :
  schedule_coverage [sample_show "broken" "ab:cd" "10:00";
                     sample_show "all-day" "00:00" "00:00"]
  = Raise ValueError /\
  schedule_coverage [sample_show "loose" "8:5" "24:30"]
  = Ok [overlap_message 30
          {| slot_id := "loose"; slot_start := 485; slot_end := 1470 |}
          {| slot_id := "loose"; slot_start := 485; slot_end := 1470 |};
        coverage_message (Fixed 1 (literal 985 60))].
Proof. split; by vm_compute. Qed.

(** C3, amended.  When some show has a start or end time of ASCII text
    that does not split at ":" into exactly two integer literals, the
    schedule checker raises [ValueError] and returns no findings for any
    show.  When every time is ASCII text of at most 640 characters that
    does, however it is written, each show yields a slot and all of them
    enter the coverage math. *)
Theorem unparsable_time_raises (shows : list Show) :
  (forall show : Show,
     show ∈ shows ->
     unparsable (start_time_utc (schedule show)) \/
     unparsable (end_time_utc (schedule show)) ->
     schedule_coverage shows = Raise ValueError) /\
  (Forall (fun show => parsable (start_time_utc (schedule show)) /\
                       parsable (end_time_utc (schedule show))) shows ->
   exists slots : list Slot,
     parse_schedule shows = Ok slots /\
     Forall2 (fun show slot => parse_show show = Ok slot) shows slots /\
     schedule_coverage shows
     = (errors ← check_total (sort_schedule slots)
                   (check_adjacent (sort_schedule slots) []);
        _ ← print_schedule (sort_schedule slots);
        Ok errors)).
Proof.
  split.
  - intros show Hin Hbad. unfold schedule_coverage.
    rewrite parse_schedule_unfold.
    by rewrite (parse_loop_raises shows [] show ValueError Hin
                  (parse_show_unparsable show Hbad)).
  - intros Hall.
    assert (exists slots, Forall2 (fun show slot => parse_show show = Ok slot) shows slots)
      as [slots Hslots].
    { induction Hall as [|show shows [Hs He] _ [slots IH]]; [by exists []|].
      destruct (parse_show_parsable show Hs He) as [slot Hslot].
      exists (slot :: slots). by constructor. }
    exists slots. apply parse_schedule_ok in Hslots as Hparse.
    split; [done|]. split; [done|].
    by apply schedule_coverage_parsed.
Qed.

Lemma unparsable_time_raises_witness :
  schedule_coverage [sample_show "broken" "ab:cd" "10:00";
                     sample_show "all-day" "00:00" "00:00"]
  = Raise ValueError /\
  exists slots : list Slot,
    parse_schedule [sample_show "loose" "8:5" "24:30"] = Ok slots /\
    Forall2 (fun show slot => parse_show show = Ok slot)
            [sample_show "loose" "8:5" "24:30"] slots /\
    schedule_coverage [sample_show "loose" "8:5" "24:30"]
    = (errors ← check_total (sort_schedule slots)
                  (check_adjacent (sort_schedule slots) []);
       _ ← print_schedule (sort_schedule slots);
       Ok errors).
Proof.
  split.
  - apply (proj1 (unparsable_time_raises _) (sample_show "broken" "ab:cd" "10:00")).
    + apply elem_of_cons. by left.
    + left. split; [reflexivity|]. exists ValueError. reflexivity.
  - apply (proj2 (unparsable_time_raises [sample_show "loose" "8:5" "24:30"])).
    constructor; [|constructor].
    split; (split; [reflexivity|split; [reflexivity|]]).
    + exists 8, 5. reflexivity.
    + exists 24, 30. reflexivity.
Defined.

(** ** Cross references *)

(** All the violations of one show: unknown presenters first, then unknown
    tags, each in the order of the show document. *)
Definition reference_violations (presenter_ids allowed_tags : gset string)
    (show : Show) : list message :=
  (unknown_presenter (show_id show)
     <$> filter (fun presenter_id => presenter_id ∉ presenter_ids)
                (primary_duo (presenters show)))
  ++ (unknown_tag (show_id show)
        <$> filter (fun tag => tag ∉ allowed_tags)
                   (primary_tags (topics show))).

(** What one show file adds to the errors. *)
Definition file_findings (presenter_ids allowed_tags : gset string)
    (file : string * option Show) : list message :=
  match file.2 with
  | None => [[Lit "Failed to load "; Str file.1]]
  | Some show => reference_violations presenter_ids allowed_tags show
  end.

Lemma check_references_spec (presenter_ids allowed_tags : gset string)
    (show : Show) (errors : list message) :
  check_references presenter_ids allowed_tags show errors
  = errors ++ reference_violations presenter_ids allowed_tags show.
Proof.
  unfold check_references, reference_violations.
  rewrite (foldl_append_filter (fun presenter_id => presenter_id ∉ presenter_ids)).
  rewrite (foldl_append_filter (fun tag => tag ∉ allowed_tags)).
  by rewrite app_assoc.
Qed.

Lemma render_unknown_presenter (show_id presenter_id : string) :
  render (unknown_presenter show_id presenter_id)
  = Some (show_id +:+ ": Unknown presenter '" +:+ presenter_id +:+ "'").
Proof. reflexivity. Qed.

Lemma render_unknown_tag (show_id tag : string) :
  render (unknown_tag show_id tag)
  = Some (show_id +:+ ": Unknown tag '" +:+ tag +:+ "'").
Proof. reflexivity. Qed.

(** C6. With the presenter roster and the tag vocabulary loaded, the
    cross-reference checker returns, for the show files in enumeration
    (sorted) order, every unknown presenter of the show and then every
    unknown tag, each in document order, with the messages
    "<show_id>: Unknown presenter '<id>'" and "<show_id>: Unknown tag '<tag>'";
    nothing stops the collection early. *)
Theorem cross_references_collects_all (c : Config)
    (presenters_data : PresentersData) (tags_data : TagsData) :
  presenters_json c = Some presenters_data ->
  tags_json c = Some tags_data ->
  validate_cross_references c
  = mjoin (file_findings
             (list_to_set (presenter_id <$> presenters_list presenters_data))
             (list_to_set (allowed_topic_tags tags_data))
           <$> show_files c) /\
  (forall show_id presenter_id : string,
     render (unknown_presenter show_id presenter_id)
     = Some (show_id +:+ ": Unknown presenter '" +:+ presenter_id +:+ "'")) /\
  (forall show_id tag : string,
     render (unknown_tag show_id tag)
     = Some (show_id +:+ ": Unknown tag '" +:+ tag +:+ "'")).
Proof.
  intros Hpresenters Htags. split; [|split].
  - unfold validate_cross_references. rewrite Hpresenters, Htags.
    set (presenter_ids := list_to_set _).
    set (allowed_tags := list_to_set _).
    rewrite <- (app_nil_l (mjoin _)).
    rewrite <- foldl_append_each.
    generalize (@nil message). induction (show_files c) as [|[show_file loaded] files IH];
      intros errors; [done|].
    simpl. rewrite <- IH. f_equal.
    unfold file_findings. simpl. destruct loaded as [show|]; [|done].
    apply check_references_spec.
  - apply render_unknown_presenter.
  - apply render_unknown_tag.
Qed.

(** Two show files, enumerated out of order; the first in sorted order names
    an unknown presenter and an unknown tag. *)
Definition morning_show : Show :=
  {| show_id := "morning";
     presenters := {| primary_duo := ["dj_unknown"; "sam"] |};
     topics := {| primary_tags := ["weather"; "gossip"] |};
     ratios := {| music_fraction := PyFloat (literal 6 10);
                  talk_fraction := PyFloat (literal 4 10) |};
     schedule := {| start_time_utc := "00:00";
                    end_time_utc := "12:00";
                    duration_hours := PyInt 12 |};
     ai_budget := {| max_tts_seconds_per_show := PyInt 17280;
                     max_music_minutes_per_show := PyInt 432 |} |}.

Definition sample_config : Config :=
  {| station_json :=
       Some {| default_ratios :=
                 {| max_music_fraction := PyFloat (literal 6 10);
                    min_talk_fraction := PyFloat (literal 4 10) |} |};
     presenters_json :=
       Some {| presenters_list :=
                 [{| presenter_id := "alex" |}; {| presenter_id := "sam" |}] |};
     tags_json := Some {| allowed_topic_tags := ["weather"; "commute"] |};
     shows_glob :=
       [("config/shows/b_evening.json",
         Some (sample_show "evening" "12:00" "00:00"));
        ("config/shows/a_morning.json", Some morning_show)] |}.

Lemma sample_config_shows :
  loaded_shows sample_config
  = [morning_show; sample_show "evening" "12:00" "00:00"].
Proof. reflexivity. Qed.

Lemma cross_references_collects_all_witness :
  validate_cross_references sample_config
  = [unknown_presenter "morning" "dj_unknown"; unknown_tag "morning" "gossip"].
Proof.
  rewrite (proj1 (cross_references_collects_all sample_config
                    {| presenters_list :=
                         [{| presenter_id := "alex" |}; {| presenter_id := "sam" |}] |}
                    {| allowed_topic_tags := ["weather"; "commute"] |}
                    eq_refl eq_refl)).
  by vm_compute.
Defined.

(** ** Ratios *)

Lemma le_not_gt (x y : num) : le x y = true -> gt x y = false.
Proof. unfold le, gt. by destruct (compare x y) as [[]|]. Qed.

Lemma ge_not_lt (x y : num) : ge x y = true -> lt x y = false.
Proof. unfold ge, lt. by destruct (compare x y) as [[]|]. Qed.

(** The findings of the two bound checks of a show. *)
Definition bound_findings (max_music min_talk : num) (show : Show) : list message :=
  (if gt (music_fraction (ratios show)) max_music
   then [music_exceeds (show_id show) (music_fraction (ratios show)) max_music]
   else [])
  ++ (if lt (talk_fraction (ratios show)) min_talk
      then [talk_below (show_id show) (talk_fraction (ratios show)) min_talk]
      else []).

(** The three checks are independent: each adds its own finding. *)
Lemma check_ratios_spec (max_music min_talk : num) (show : Show)
    (errors : list message) (total diff : num) :
  add (music_fraction (ratios show)) (talk_fraction (ratios show)) = Ok total ->
  sub total one = Ok diff ->
  check_ratios max_music min_talk show errors
  = Ok (errors ++ bound_findings max_music min_talk show
        ++ (if gt (abs diff) sum_tolerance
            then [ratios_sum (show_id show) total]
            else [])).
Proof.
  intros Htotal Hdiff. unfold check_ratios, bound_findings.
  rewrite Htotal. simpl. rewrite Hdiff. simpl.
  destruct (gt (music_fraction (ratios show)) max_music),
    (lt (talk_fraction (ratios show)) min_talk),
    (gt (abs diff) sum_tolerance);
    simpl; by rewrite <- ?app_assoc, ?app_nil_r.
Qed.

(** A show within the policy: [music <= max], [talk >= min] and
    [abs(music + talk - 1.0) <= 0.001], each as Python evaluates it. *)
Definition within_policy (max_music min_talk : num) (show : Show) : Prop :=
  le (music_fraction (ratios show)) max_music = true /\
  ge (talk_fraction (ratios show)) min_talk = true /\
  exists total diff,
    add (music_fraction (ratios show)) (talk_fraction (ratios show)) = Ok total /\
    sub total one = Ok diff /\
    le (abs diff) sum_tolerance = true.

(** The shows of a config, failed loads skipped. *)
Lemma for_each_loaded {S : Type} (files : list (string * option Show))
    (body : S -> Show -> result S) (s : S) :
  for_each files
    (fun s '(_, loaded) => match loaded with None => Ok s | Some show => body s show end) s
  = for_each (omap snd files) body s.
Proof.
  revert s. induction files as [|[show_file [show|]] files IH]; intros s; simpl.
  - done.
  - destruct (body s show); simpl; [apply IH|done].
  - apply IH.
Qed.

(** C4. For a policy and a show with music_fraction <= max_music_fraction,
    talk_fraction >= min_talk_fraction and
    |music_fraction + talk_fraction - 1.0| <= 0.001, the ratio checks add no
    finding; a configuration whose shows are all such gets no ratio error
    (its fractions being printable as percentages). *)
Theorem conforming_ratios_no_findings (max_music min_talk : num) :
  (forall (show : Show) (errors : list message),
     within_policy max_music min_talk show ->
     check_ratios max_music min_talk show errors = Ok errors) /\
  (forall c : Config,
     station_json c
     = Some {| default_ratios := {| max_music_fraction := max_music;
                                    min_talk_fraction := min_talk |} |} ->
     Forall (fun show =>
               within_policy max_music min_talk show /\
               (exists f, to_float (music_fraction (ratios show)) = Ok f) /\
               (exists f, to_float (talk_fraction (ratios show)) = Ok f))
            (loaded_shows c) ->
     validate_music_ratios c = Ok []).
Proof.
  assert (Hshow : forall show errors,
             within_policy max_music min_talk show ->
             check_ratios max_music min_talk show errors = Ok errors).
  { intros show errors (Hmusic & Htalk & total & diff & Htotal & Hdiff & Hsum).
    rewrite (check_ratios_spec _ _ _ _ _ _ Htotal Hdiff).
    unfold bound_findings.
    rewrite (le_not_gt _ _ Hmusic), (ge_not_lt _ _ Htalk), (le_not_gt _ _ Hsum).
    simpl. by rewrite app_nil_r. }
  split; [exact Hshow|].
  intros c Hstation Hall. unfold validate_music_ratios.
  rewrite Hstation. simpl.
  rewrite (for_each_loaded (show_files c)
             (fun errors show =>
                errors ← check_ratios max_music min_talk show errors;
                _ ← percent 0 (music_fraction (ratios show));
                _ ← percent 0 (talk_fraction (ratios show));
                Ok errors)).
  fold (loaded_shows c). generalize (@nil message).
  induction Hall as [|show shows (Hpolicy & [f Hf] & [g Hg]) _ IH]; intros errors; [done|].
  rewrite for_each_cons, (Hshow _ _ Hpolicy). unfold percent.
  rewrite Hf, Hg. simpl. apply IH.
Qed.

(** Evaluates the three conditions of [within_policy] on concrete numbers. *)
Ltac policy_check :=
  split; [vm_compute; reflexivity|];
  split; [vm_compute; reflexivity|];
  eexists _, _; split; [vm_compute; reflexivity|];
  split; [vm_compute; reflexivity|vm_compute; reflexivity].

Lemma conforming_ratios_no_findings_witness :
  check_ratios (PyFloat (literal 6 10)) (PyFloat (literal 4 10))
    (sample_show "evening" "12:00" "00:00") [] = Ok [] /\
  validate_music_ratios sample_config = Ok [].
Proof.
  split.
  - apply (proj1 (conforming_ratios_no_findings _ _)). policy_check.
  - apply (proj2 (conforming_ratios_no_findings
                    (PyFloat (literal 6 10)) (PyFloat (literal 4 10)))).
    + reflexivity.
    + rewrite sample_config_shows.
      constructor; [|constructor; [|constructor]].
      * split; [policy_check|split; eexists; reflexivity].
      * split; [policy_check|split; eexists; reflexivity].
Defined.

(** The two sums of the tolerance boundary, as Python evaluates
    [1.0 + 0.0011] and [1.0 + 0.0009]. *)
Definition sum_above : float := fadd (literal 1 1) (literal 11 10000).
Definition sum_below : float := fadd (literal 1 1) (literal 9 10000).

(** [0x1.004816f0068dcp+0] and [0x1.003afb7e90ff9p+0]. *)
Example sum_values :
  sum_above = S754_finite false 4508553586960604 (-52) /\
  sum_below = S754_finite false 4507652867035129 (-52).
Proof. split; by vm_compute. Qed.






(** ** Budgets *)

(** The findings of the two budget checks of a show, given the drift of
    each budget from its expected value. *)
Definition budget_findings (show : Show) (tts_diff music_diff : num)
    (expected_tts expected_music : piece) : list message :=
  (if gt (abs tts_diff) (PyInt 60)
   then [tts_warning (show_id show)
           (max_tts_seconds_per_show (ai_budget show)) expected_tts]
   else [])
  ++ (if gt (abs music_diff) (PyInt 5)
      then [music_warning (show_id show)
              (max_music_minutes_per_show (ai_budget show)) expected_music]
      else []).

Lemma check_budget_spec (show : Show) (warnings : list message)
    (tts music tts_diff music_diff : num) (tts_text music_text : piece) :
  expected_tts show = Ok tts ->
  expected_music_mins show = Ok music ->
  sub (max_tts_seconds_per_show (ai_budget show)) tts = Ok tts_diff ->
  sub (max_music_minutes_per_show (ai_budget show)) music = Ok music_diff ->
  (gt (abs tts_diff) (PyInt 60) = true -> fixed 0 tts = Ok tts_text) ->
  (gt (abs music_diff) (PyInt 5) = true -> fixed 0 music = Ok music_text) ->
  check_budget show warnings
  = Ok (warnings ++ budget_findings show tts_diff music_diff tts_text music_text).
Proof.
  intros Htts Hmusic Htts_diff Hmusic_diff Htts_text Hmusic_text.
  unfold check_budget, budget_findings.
  rewrite Htts. simpl. rewrite Hmusic. simpl. rewrite Htts_diff. simpl.
  destruct (gt (abs tts_diff) (PyInt 60)) eqn:Hgt_tts.
  - rewrite (Htts_text eq_refl). simpl. rewrite Hmusic_diff. simpl.
    destruct (gt (abs music_diff) (PyInt 5)) eqn:Hgt_music.
    + rewrite (Hmusic_text eq_refl). simpl. by rewrite <- app_assoc.
    + done.
  - simpl. rewrite Hmusic_diff. simpl.
    destruct (gt (abs music_diff) (PyInt 5)) eqn:Hgt_music.
    + by rewrite (Hmusic_text eq_refl).
    + by rewrite app_nil_r.
Qed.

(** *** When the arithmetic is defined

    Floats never raise; ints raise [OverflowError] only when a conversion to
    float meets a magnitude of [overflow_threshold] or more. *)

(** A number that is a float, or an int of magnitude below [bound]. *)
Definition int_below (bound : Z) (x : num) : Prop :=
  match x with
  | PyInt z => Z.abs z < bound
  | PyFloat _ => True
  end.

(** The bound on the ints of a show document under which the budget
    arithmetic is shown to be defined. *)
Definition field_bound : Z := 2 ^ 256.

Lemma field_bound_room :
  0 < field_bound /\
  field_bound * 3601 * field_bound + field_bound <= overflow_threshold.
Proof. split; by vm_compute. Qed.

Lemma int_below_weaken (b1 b2 : Z) (x : num) :
  b1 <= b2 -> int_below b1 x -> int_below b2 x.
Proof. destruct x; simpl; [lia|done]. Qed.

Lemma int_to_float_defined (z : Z) :
  Z.abs z < overflow_threshold -> exists f, int_to_float z = Ok f.
Proof.
  intros Hz. unfold int_to_float.
  rewrite (proj2 (Z.leb_gt _ _) Hz). by eexists.
Qed.

Lemma to_float_defined (x : num) :
  int_below overflow_threshold x -> exists f, to_float x = Ok f.
Proof.
  destruct x as [z|f]; simpl; [apply int_to_float_defined|by eexists].
Qed.

Lemma arith_defined (zop : Z -> Z -> Z) (fop : float -> float -> float)
    (x y : num) :
  int_below overflow_threshold x -> int_below overflow_threshold y ->
  exists r, arith zop fop x y = Ok r /\
            match x, y with
            | PyInt a, PyInt b => r = PyInt (zop a b)
            | _, _ => exists f, r = PyFloat f
            end.
Proof.
  intros Hx Hy. unfold arith.
  destruct x as [a|x], y as [b|y]; simpl in *.
  - by eexists.
  - destruct (int_to_float_defined a Hx) as [f ->]. simpl.
    eexists. split; [done|by eexists].
  - destruct (int_to_float_defined b Hy) as [g ->]. simpl.
    eexists. split; [done|by eexists].
  - eexists. split; [done|by eexists].
Qed.

Lemma mul_defined (b1 b2 : Z) (x y : num) :
  b1 <= overflow_threshold -> b2 <= overflow_threshold ->
  int_below b1 x -> int_below b2 y ->
  exists r, mul x y = Ok r /\ int_below (b1 * b2) r.
Proof.
  intros Hb1 Hb2 Hx Hy.
  destruct (arith_defined Z.mul fmul x y) as (r & Hr & Hshape);
    [by apply (int_below_weaken b1)|by apply (int_below_weaken b2)|].
  exists r. split; [done|].
  destruct x as [a|x], y as [b|y];
    [|destruct Hshape as [f ->]; done..].
  subst r. simpl in *. rewrite Z.abs_mul.
  apply Z.mul_lt_mono_nonneg; lia.
Qed.

Lemma sub_defined (b1 b2 : Z) (x y : num) :
  b1 <= overflow_threshold -> b2 <= overflow_threshold ->
  int_below b1 x -> int_below b2 y ->
  exists r, sub x y = Ok r /\ int_below (b1 + b2) r.
Proof.
  intros Hb1 Hb2 Hx Hy.
  destruct (arith_defined Z.sub fsub x y) as (r & Hr & Hshape);
    [by apply (int_below_weaken b1)|by apply (int_below_weaken b2)|].
  exists r. split; [done|].
  destruct x as [a|x], y as [b|y];
    [|destruct Hshape as [f ->]; done..].
  subst r. simpl in *. lia.
Qed.

Lemma sixty_to_float : to_float (PyInt 60) = Ok (literal 60 1).
Proof. by vm_compute. Qed.

Lemma sixty_nonzero : is_zero (literal 60 1) = false.
Proof. by vm_compute. Qed.

Lemma truediv_float_60 (f : float) :
  truediv (PyFloat f) (PyInt 60) = Ok (PyFloat (fdiv f (literal 60 1))).
Proof.
  unfold truediv. rewrite sixty_to_float.
  cbn [mbind result_bind to_float]. by rewrite sixty_nonzero.
Qed.

Lemma truediv_60_defined (x : num) :
  int_below overflow_threshold x ->
  exists f, truediv x (PyInt 60) = Ok (PyFloat f).
Proof.
  destruct x as [z|f]; simpl int_below; intros Hz.
  - apply truediv_60. lia.
  - rewrite truediv_float_60. by eexists.
Qed.

Lemma fixed_defined (places : nat) (x : num) :
  int_below overflow_threshold x ->
  exists f, fixed places x = Ok (Fixed places f).
Proof.
  intros Hx. destruct (to_float_defined x Hx) as [f Hf].
  exists f. unfold fixed. by rewrite Hf.
Qed.

(** The numeric fields of a show are floats or ints below [field_bound]. *)
Definition modest (show : Show) : Prop :=
  int_below field_bound (duration_hours (schedule show)) /\
  int_below field_bound (talk_fraction (ratios show)) /\
  int_below field_bound (music_fraction (ratios show)) /\
  int_below field_bound (max_tts_seconds_per_show (ai_budget show)) /\
  int_below field_bound (max_music_minutes_per_show (ai_budget show)).

(** The arithmetic of the budget checker is defined on a modest show. *)
Lemma budget_arithmetic_defined (show : Show) :
  modest show ->
  exists (total_seconds tts music_seconds music tts_diff music_diff : num)
         (tts_text music_text : piece),
    mul (duration_hours (schedule show)) (PyInt 3600) = Ok total_seconds /\
    mul total_seconds (talk_fraction (ratios show)) = Ok tts /\
    mul total_seconds (music_fraction (ratios show)) = Ok music_seconds /\
    truediv music_seconds (PyInt 60) = Ok music /\
    sub (max_tts_seconds_per_show (ai_budget show)) tts = Ok tts_diff /\
    sub (max_music_minutes_per_show (ai_budget show)) music = Ok music_diff /\
    fixed 0 tts = Ok tts_text /\
    fixed 0 music = Ok music_text.
Proof.
  intros (Hduration & Htalk & Hmusic & Htts_budget & Hmusic_budget).
  destruct field_bound_room as [Hpos Hroom].
  assert (Hfield : field_bound <= overflow_threshold) by nia.
  assert (Hseconds_bound : field_bound * 3601 <= overflow_threshold) by nia.
  assert (Hproduct_bound : field_bound * 3601 * field_bound <= overflow_threshold)
    by lia.
  destruct (mul_defined field_bound 3601 (duration_hours (schedule show)) (PyInt 3600))
    as (total_seconds & Hseconds & Hseconds_below); [done|by vm_compute|done|simpl; lia|].
  destruct (mul_defined _ _ total_seconds (talk_fraction (ratios show))
              Hseconds_bound Hfield Hseconds_below Htalk)
    as (tts & Htts & Htts_below).
  destruct (mul_defined _ _ total_seconds (music_fraction (ratios show))
              Hseconds_bound Hfield Hseconds_below Hmusic)
    as (music_seconds & Hmusic_seconds & Hmusic_seconds_below).
  destruct (truediv_60_defined music_seconds) as [music Hmusic_mins];
    [by apply (int_below_weaken (field_bound * 3601 * field_bound))|].
  destruct (sub_defined _ _ (max_tts_seconds_per_show (ai_budget show)) tts
              Hfield Hproduct_bound Htts_budget Htts_below)
    as (tts_diff & Htts_diff & _).
  destruct (sub_defined field_bound 0
              (max_music_minutes_per_show (ai_budget show)) (PyFloat music))
    as (music_diff & Hmusic_diff & _); [done|by vm_compute|done|done|].
  destruct (fixed_defined 0 tts) as [tts_value Htts_text];
    [by apply (int_below_weaken (field_bound * 3601 * field_bound))|].
  destruct (fixed_defined 0 (PyFloat music)) as [music_value Hmusic_text]; [done|].
  by exists total_seconds, tts, music_seconds, (PyFloat music), tts_diff, music_diff,
    (Fixed 0 tts_value), (Fixed 0 music_value).
Qed.

(** The two expected values, by their formulas. *)
Lemma expected_budgets (show : Show) (total_seconds tts music_seconds music : num) :
  mul (duration_hours (schedule show)) (PyInt 3600) = Ok total_seconds ->
  mul total_seconds (talk_fraction (ratios show)) = Ok tts ->
  mul total_seconds (music_fraction (ratios show)) = Ok music_seconds ->
  truediv music_seconds (PyInt 60) = Ok music ->
  expected_tts show = Ok tts /\ expected_music_mins show = Ok music.
Proof.
  intros Hseconds Htts Hmusic_seconds Hmusic.
  unfold expected_tts, expected_music_mins. rewrite Hseconds.
  cbn [mbind result_bind]. rewrite Hmusic_seconds. by split.
Qed.

(** A loop whose body appends what [f] finds for each element returns the
    findings of all elements, in order; it completes exactly when [f] does
    on every element. *)
Lemma for_each_appends {A M : Type} (f : A -> result (list M))
    (body : list M -> A -> result (list M)) :
  (forall s x, body s x = (f x ≫= fun e => Ok (s ++ e))) ->
  forall (xs : list A) (s r : list M),
    for_each xs body s = Ok r <->
    exists es, Forall2 (fun x e => f x = Ok e) xs es /\ r = s ++ mjoin es.
Proof.
  intros Hbody. induction xs as [|x xs IH]; intros s r.
  - simpl. split.
    + intros [= <-]. exists []. split; [constructor|by rewrite app_nil_r].
    + intros (es & Hes & ->). inversion Hes. by rewrite app_nil_r.
  - rewrite for_each_cons, Hbody.
    destruct (f x) as [e|err] eqn:Hx; simpl.
    + rewrite IH. split.
      * intros (es & Hes & ->). exists (e :: es).
        split; [by constructor|]. simpl. by rewrite app_assoc.
      * intros (es & Hes & ->).
        inversion Hes as [|? e' ? es' He Hes']; subst.
        exists es'. split; [done|].
        replace e' with e by congruence. simpl. by rewrite app_assoc.
    + split; [done|]. intros (es & Hes & _). inversion Hes; congruence.
Qed.

Lemma check_budget_frame (show : Show) (warnings : list message) :
  check_budget show warnings
  = (w ← check_budget show []; Ok (warnings ++ w)).
Proof.
  unfold check_budget.
  destruct (expected_tts show) as [tts|e]; simpl; [|done].
  destruct (expected_music_mins show) as [music|e]; simpl; [|done].
  destruct (sub _ tts) as [tts_diff|e]; simpl; [|done].
  destruct (gt (abs tts_diff) (PyInt 60)); simpl.
  - destruct (fixed 0 tts) as [p|e]; simpl; [|done].
    destruct (sub _ music) as [music_diff|e]; simpl; [|done].
    destruct (gt (abs music_diff) (PyInt 5)); simpl; [|done].
    destruct (fixed 0 music) as [q|e]; simpl; [|done].
    by rewrite <- app_assoc.
  - destruct (sub _ music) as [music_diff|e]; simpl; [|done].
    destruct (gt (abs music_diff) (PyInt 5)); simpl; [|by rewrite app_nil_r].
    by destruct (fixed 0 music) as [q|e].
Qed.

(** C7. For a show, with expected_tts = duration_hours*3600*talk_fraction
    and expected_music_mins = (duration_hours*3600*music_fraction)/60, each
    product and quotient taken as Python takes it, the budget checker adds
    the TTS finding exactly when
    |max_tts_seconds_per_show - expected_tts| > 60 and the music finding
    exactly when |max_music_minutes_per_show - expected_music_mins| > 5; the
    arithmetic is defined for every show whose numbers are floats or ints
    below 2^256.  The checker returns the findings of its shows, one show
    after the other.  In [main] these findings make up the warnings; the
    errors are the findings of the four other checkers, and the exit status
    depends on the errors alone. *)
Theorem budget_drift_is_a_warning :
  (forall (show : Show) (warnings : list message)
          (total_seconds tts music_seconds music tts_diff music_diff : num)
          (tts_text music_text : piece),
     mul (duration_hours (schedule show)) (PyInt 3600) = Ok total_seconds ->
     mul total_seconds (talk_fraction (ratios show)) = Ok tts ->
     mul total_seconds (music_fraction (ratios show)) = Ok music_seconds ->
     truediv music_seconds (PyInt 60) = Ok music ->
     sub (max_tts_seconds_per_show (ai_budget show)) tts = Ok tts_diff ->
     sub (max_music_minutes_per_show (ai_budget show)) music = Ok music_diff ->
     (gt (abs tts_diff) (PyInt 60) = true -> fixed 0 tts = Ok tts_text) ->
     (gt (abs music_diff) (PyInt 5) = true -> fixed 0 music = Ok music_text) ->
     check_budget show warnings
     = Ok (warnings
           ++ (if gt (abs tts_diff) (PyInt 60)
               then [tts_warning (show_id show)
                       (max_tts_seconds_per_show (ai_budget show)) tts_text]
               else [])
           ++ (if gt (abs music_diff) (PyInt 5)
               then [music_warning (show_id show)
                       (max_music_minutes_per_show (ai_budget show)) music_text]
               else []))) /\
  (forall (show : Show) (warnings : list message),
     modest show ->
     exists (total_seconds tts music_seconds music tts_diff music_diff : num)
            (tts_text music_text : piece),
       mul (duration_hours (schedule show)) (PyInt 3600) = Ok total_seconds /\
       mul total_seconds (talk_fraction (ratios show)) = Ok tts /\
       mul total_seconds (music_fraction (ratios show)) = Ok music_seconds /\
       truediv music_seconds (PyInt 60) = Ok music /\
       sub (max_tts_seconds_per_show (ai_budget show)) tts = Ok tts_diff /\
       sub (max_music_minutes_per_show (ai_budget show)) music = Ok music_diff /\
       fixed 0 tts = Ok tts_text /\
       fixed 0 music = Ok music_text /\
       check_budget show warnings
       = Ok (warnings
             ++ (if gt (abs tts_diff) (PyInt 60)
                 then [tts_warning (show_id show)
                         (max_tts_seconds_per_show (ai_budget show)) tts_text]
                 else [])
             ++ (if gt (abs music_diff) (PyInt 5)
                 then [music_warning (show_id show)
                         (max_music_minutes_per_show (ai_budget show)) music_text]
                 else []))) /\
  (forall (c : Config) (warnings : list message),
     validate_ai_budgets c = Ok warnings <->
     exists per_show : list (list message),
       Forall2 (fun show found => check_budget show [] = Ok found)
               (loaded_shows c) per_show /\
       warnings = mjoin per_show) /\
  (forall (c : Config) (ratio_errors schedule_errors : list message)
          (per_show : list (list message)),
     validate_music_ratios c = Ok ratio_errors ->
     validate_schedule_coverage c = Ok schedule_errors ->
     Forall2 (fun show found => check_budget show [] = Ok found)
             (loaded_shows c) per_show ->
     main c
     = Ok {| all_errors := validate_json_syntax c ++ validate_cross_references c
                           ++ ratio_errors ++ schedule_errors;
             all_warnings := mjoin per_show;
             exit_status :=
               match validate_json_syntax c ++ validate_cross_references c
                     ++ ratio_errors ++ schedule_errors with
               | [] => 0
               | _ :: _ => 1
               end |}).
Proof.
  assert (Hshow : forall (show : Show) (warnings : list message)
            (total_seconds tts music_seconds music tts_diff music_diff : num)
            (tts_text music_text : piece),
     mul (duration_hours (schedule show)) (PyInt 3600) = Ok total_seconds ->
     mul total_seconds (talk_fraction (ratios show)) = Ok tts ->
     mul total_seconds (music_fraction (ratios show)) = Ok music_seconds ->
     truediv music_seconds (PyInt 60) = Ok music ->
     sub (max_tts_seconds_per_show (ai_budget show)) tts = Ok tts_diff ->
     sub (max_music_minutes_per_show (ai_budget show)) music = Ok music_diff ->
     (gt (abs tts_diff) (PyInt 60) = true -> fixed 0 tts = Ok tts_text) ->
     (gt (abs music_diff) (PyInt 5) = true -> fixed 0 music = Ok music_text) ->
     check_budget show warnings
     = Ok (warnings ++ budget_findings show tts_diff music_diff tts_text music_text)).
  { intros show warnings total_seconds tts music_seconds music tts_diff music_diff
      tts_text music_text Hseconds Htts Hmusic_seconds Hmusic.
    destruct (expected_budgets show _ _ _ _ Hseconds Htts Hmusic_seconds Hmusic)
      as [Hexpected_tts Hexpected_music].
    by apply (check_budget_spec show warnings tts music). }
  assert (Hloop : forall (c : Config) (warnings : list message),
     validate_ai_budgets c = Ok warnings <->
     exists per_show : list (list message),
       Forall2 (fun show found => check_budget show [] = Ok found)
               (loaded_shows c) per_show /\
       warnings = mjoin per_show).
  { intros c warnings. unfold validate_ai_budgets.
    apply (for_each_appends (fun show => check_budget show [])).
    intros found show. apply check_budget_frame. }
  split; [exact Hshow|]. split; [|split; [exact Hloop|]].
  - intros show warnings Hmodest.
    destruct (budget_arithmetic_defined show Hmodest)
      as (total_seconds & tts & music_seconds & music & tts_diff & music_diff
          & tts_text & music_text & Hseconds & Htts & Hmusic_seconds & Hmusic
          & Htts_diff & Hmusic_diff & Htts_text & Hmusic_text).
    exists total_seconds, tts, music_seconds, music, tts_diff, music_diff,
      tts_text, music_text.
    repeat (split; [done|]).
    by apply (Hshow show warnings total_seconds tts music_seconds music).
  - intros c ratio_errors schedule_errors per_show Hratios Hschedule Hfound.
    assert (Hbudgets : validate_ai_budgets c = Ok (mjoin per_show)).
    { apply Hloop. by exists per_show. }
    unfold main. rewrite Hratios, Hschedule, Hbudgets. simpl.
    by rewrite <- !app_assoc.
Qed.

(** A whole day with 40% talk: 34560 seconds of speech are expected, 5000
    are declared; the 864 minutes of music are as expected. *)
Definition overspent_show : Show :=
  {| show_id := "overspent";
     presenters := {| primary_duo := ["alex"; "sam"] |};
     topics := {| primary_tags := ["weather"] |};
     ratios := {| music_fraction := PyFloat (literal 6 10);
                  talk_fraction := PyFloat (literal 4 10) |};
     schedule := {| start_time_utc := "00:00";
                    end_time_utc := "00:00";
                    duration_hours := PyInt 24 |};
     ai_budget := {| max_tts_seconds_per_show := PyInt 5000;
                     max_music_minutes_per_show := PyInt 864 |} |}.

(** The station with this show alone. *)
Definition overspent_config : Config :=
  {| station_json :=
       Some {| default_ratios :=
                 {| max_music_fraction := PyFloat (literal 6 10);
                    min_talk_fraction := PyFloat (literal 4 10) |} |};
     presenters_json :=
       Some {| presenters_list :=
                 [{| presenter_id := "alex" |}; {| presenter_id := "sam" |}] |};
     tags_json := Some {| allowed_topic_tags := ["weather"; "commute"] |};
     shows_glob := [("config/shows/overspent.json", Some overspent_show)] |}.

Definition overspent_warning : message :=
  tts_warning "overspent" (PyInt 5000) (Fixed 0 (literal 34560 1)).

Lemma overspent_config_shows : loaded_shows overspent_config = [overspent_show].
Proof. reflexivity. Qed.

Lemma overspent_show_budget : check_budget overspent_show [] = Ok [overspent_warning].
Proof. vm_compute; reflexivity. Qed.

Lemma budget_drift_is_a_warning_witness :
  check_budget overspent_show [] = Ok [overspent_warning] /\
  validate_ai_budgets overspent_config = Ok [overspent_warning] /\
  main overspent_config
  = Ok {| all_errors := []; all_warnings := [overspent_warning]; exit_status := 0 |} /\
  exists (total_seconds tts music_seconds music tts_diff music_diff : num)
         (tts_text music_text : piece),
    mul (duration_hours (schedule overspent_show)) (PyInt 3600) = Ok total_seconds /\
    mul total_seconds (talk_fraction (ratios overspent_show)) = Ok tts /\
    mul total_seconds (music_fraction (ratios overspent_show)) = Ok music_seconds /\
    truediv music_seconds (PyInt 60) = Ok music /\
    sub (max_tts_seconds_per_show (ai_budget overspent_show)) tts = Ok tts_diff /\
    sub (max_music_minutes_per_show (ai_budget overspent_show)) music
    = Ok music_diff /\
    fixed 0 tts = Ok tts_text /\
    fixed 0 music = Ok music_text /\
    check_budget overspent_show []
    = Ok ([]
          ++ (if gt (abs tts_diff) (PyInt 60)
              then [tts_warning (show_id overspent_show)
                      (max_tts_seconds_per_show (ai_budget overspent_show)) tts_text]
              else [])
          ++ (if gt (abs music_diff) (PyInt 5)
              then [music_warning (show_id overspent_show)
                      (max_music_minutes_per_show (ai_budget overspent_show))
                      music_text]
              else [])).
Proof.
  split; [|split; [|split]]; cycle 3.
  - apply (proj1 (proj2 budget_drift_is_a_warning) overspent_show []).
    split; [vm_compute; reflexivity|].
    split; [exact I|]. split; [exact I|].
    split; vm_compute; reflexivity.
  - rewrite (proj1 budget_drift_is_a_warning overspent_show []
               (PyInt 86400) (PyFloat (literal 34560 1))
               (PyFloat (literal 51840 1)) (PyFloat (literal 864 1))
               (PyFloat (literal (-29560) 1)) (PyFloat (S754_zero false))
               (Fixed 0 (literal 34560 1)) (Lit "")).
    + vm_compute; reflexivity.
    + vm_compute; reflexivity.
    + vm_compute; reflexivity.
    + vm_compute; reflexivity.
    + vm_compute; reflexivity.
    + vm_compute; reflexivity.
    + vm_compute; reflexivity.
    + intros _. vm_compute; reflexivity.
    + intros H. vm_compute in H. discriminate H.
  - apply (proj2 (proj1 (proj2 (proj2 budget_drift_is_a_warning))
                    overspent_config [overspent_warning])).
    exists [[overspent_warning]]. split; [|reflexivity].
    rewrite overspent_config_shows.
    constructor; [exact overspent_show_budget|constructor].
  - rewrite (proj2 (proj2 (proj2 budget_drift_is_a_warning)) overspent_config
               [] [] [[overspent_warning]]).
    + vm_compute; reflexivity.
    + vm_compute; reflexivity.
    + vm_compute; reflexivity.
    + rewrite overspent_config_shows.
      constructor; [exact overspent_show_budget|constructor].
Defined.

(** * Further properties of the checkers *)

(** ** The sorted schedule *)

Section SortedFacts.
Context {A : Type} (leb : A -> A -> bool).
Hypothesis leb_total : forall a b, leb a b = true \/ leb b a = true.

Lemma insert_sorted_Sorted (x : A) (l : list A) :
  Sorted (fun a b => leb a b = true) l ->
  Sorted (fun a b => leb a b = true) (insert_sorted leb x l).
Proof.
  induction 1 as [|y l Hl IH Hhd]; simpl.
  - by repeat constructor.
  - destruct (leb x y) eqn:Hxy.
    + constructor; [by constructor|by constructor].
    + constructor; [done|].
      destruct Hhd as [|z l Hyz]; simpl.
      * constructor. by destruct (leb_total x y); [congruence|].
      * destruct (leb x z); constructor; [|done].
        by destruct (leb_total x y); [congruence|].
Qed.

Lemma sorted_Sorted (l : list A) : Sorted (fun a b => leb a b = true) (sorted leb l).
Proof.
  induction l as [|x l IH]; simpl; [constructor|by apply insert_sorted_Sorted].
Qed.
End SortedFacts.

Lemma sort_schedule_Sorted (slots : list Slot) :
  Sorted (fun a b => slot_start a <= slot_start b) (sort_schedule slots).
Proof.
  assert (Hs : Sorted (fun a b => (slot_start a <=? slot_start b) = true)
                 (sort_schedule slots)).
  { apply sorted_Sorted. intros a b.
    destruct (Z.leb_spec (slot_start a) (slot_start b)); [by left|right].
    apply Z.leb_le. lia. }
  induction Hs as [|x l Hl IH Hhd]; constructor; [done|].
  destruct Hhd; constructor. by apply Z.leb_le.
Qed.

(** X1. When the schedule checker returns no finding at all, every time
    parsed and the sorted slots are an exact circular partition of the day:
    ascending starts, the first at minute 0, each end the next start, the
    last end at minute 1440. *)
Theorem no_findings_means_partition (shows : list Show) :
  schedule_coverage shows = Ok [] ->
  exists slots : list Slot,
    parse_schedule shows = Ok slots /\
    circular_partition (sort_schedule slots).
Proof.
  intros Hok.
  destruct (parse_schedule shows) as [slots|e] eqn:Hparse;
    [|by unfold schedule_coverage in Hok; rewrite Hparse in Hok].
  exists slots. split; [done|].
  rewrite (schedule_coverage_parsed _ _ Hparse) in Hok.
  destruct (check_total _ _) as [errors|e] eqn:Htotal; simpl in Hok; [|done].
  destruct (print_schedule _) as [[]|e]; simpl in Hok; [|done].
  injection Hok as ->.
  apply check_total_silent in Htotal as [Hadj Htotal].
  rewrite check_adjacent_spec in Hadj. simpl app in Hadj.
  split; [apply sort_schedule_Sorted|].
  destruct (sort_schedule slots) as [|first rest]; [by vm_compute in Htotal|].
  apply adjacent_findings_nil in Hadj.
  rewrite (total_minutes_contiguous _ _ _ Hadj) in Htotal.
  by replace 0 with (slot_start first) by lia.
Qed.

Lemma no_findings_means_partition_witness :
  exists slots : list Slot,
    parse_schedule [sample_show "evening" "12:00" "00:00";
                    sample_show "morning" "00:00" "12:00"] = Ok slots /\
    circular_partition (sort_schedule slots).
Proof.
  apply no_findings_means_partition. vm_compute; reflexivity.
Defined.

(** ** Gaps, overlaps and the total *)

(** The minutes a finding of the adjacency pass stands for: a gap counts
    against the coverage, an overlap for it. *)
Definition signed_minutes (m : message) : Z :=
  match m with
  | Lit kind :: Int amount :: _ =>
      if String.eqb kind "Gap of " then - amount
      else if String.eqb kind "Overlap of " then amount
      else 0
  | _ => 0
  end.

Definition sum_minutes (findings : list message) : Z :=
  foldr (fun m acc => signed_minutes m + acc) 0 findings.

Lemma sum_minutes_app (l1 l2 : list message) :
  sum_minutes (l1 ++ l2) = sum_minutes l1 + sum_minutes l2.
Proof.
  unfold sum_minutes. induction l1 as [|m l1 IH]; simpl; [done|].
  rewrite IH. lia.
Qed.

Lemma compare_end_minutes (current next_show : Slot) (expected_end : Z) :
  sum_minutes (compare_end current expected_end next_show)
  = slot_end current - expected_end /\
  (length (compare_end current expected_end next_show) <= 1)%nat.
Proof.
  unfold compare_end.
  destruct (Z.ltb_spec (slot_end current) expected_end);
    [|destruct (Z.gtb_spec (slot_end current) expected_end)];
    (split; [vm_compute signed_minutes; unfold sum_minutes; simpl; lia|simpl; lia]).
Qed.

Lemma adjacent_findings_minutes (first current : Slot) (rest : list Slot) :
  total_minutes (current :: rest)
  = 24 * 60 - slot_start current
    + sum_minutes (adjacent_findings first (current :: rest)) /\
  (length (adjacent_findings first (current :: rest))
   <= length (current :: rest))%nat.
Proof.
  revert current. induction rest as [|next_show rest IH]; intros current.
  - simpl adjacent_findings. rewrite app_nil_r.
    destruct (compare_end_minutes current first (24 * 60)) as [-> Hlen].
    split; [|simpl; lia].
    rewrite total_minutes_cons. unfold total_minutes. simpl. lia.
  - change (adjacent_findings first (current :: next_show :: rest))
      with (compare_end current (slot_start next_show) next_show
            ++ adjacent_findings first (next_show :: rest)).
    rewrite sum_minutes_app, length_app.
    destruct (compare_end_minutes current next_show (slot_start next_show))
      as [-> Hlen].
    destruct (IH next_show) as [Htotal Hcount].
    rewrite total_minutes_cons, Htotal.
    split; [lia|simpl in *; lia].
Qed.

(** X2. The two passes of the schedule checker account for the same
    minutes: over the sorted slots, the total coverage is 1440 minus the
    start of the first slot, minus the reported gaps, plus the reported
    overlaps; and the adjacency pass reports at most one finding per slot. *)
Theorem coverage_accounts_for_findings (shows : list Show) (slots : list Slot)
    (first : Slot) (rest : list Slot) :
  parse_schedule shows = Ok slots ->
  sort_schedule slots = first :: rest ->
  total_minutes (sort_schedule slots)
  = 24 * 60 - slot_start first
    + sum_minutes (check_adjacent (sort_schedule slots) []) /\
  (length (check_adjacent (sort_schedule slots) []) <= length shows)%nat.
Proof.
  intros Hparse Hsorted.
  assert (Hlen : length (first :: rest) = length shows).
  { rewrite <- Hsorted. unfold sort_schedule. rewrite sorted_length.
    by apply parse_schedule_length. }
  rewrite check_adjacent_spec, Hsorted. simpl app.
  rewrite <- Hlen. apply adjacent_findings_minutes.
Qed.

(** Two shows with half an hour missing between them and the afternoon
    left open: 210 minutes of programme are 1440 - 480 - 30 - 720. *)
Lemma coverage_accounts_for_findings_witness :
  total_minutes
    (sort_schedule [{| slot_id := "a"; slot_start := 480; slot_end := 600 |};
                    {| slot_id := "b"; slot_start := 630; slot_end := 720 |}])
  = 24 * 60 - 480
    + sum_minutes
        (check_adjacent
           (sort_schedule [{| slot_id := "a"; slot_start := 480; slot_end := 600 |};
                           {| slot_id := "b"; slot_start := 630; slot_end := 720 |}])
           []) /\
  check_adjacent
    (sort_schedule [{| slot_id := "a"; slot_start := 480; slot_end := 600 |};
                    {| slot_id := "b"; slot_start := 630; slot_end := 720 |}]) []
  = [gap_message 30 {| slot_id := "a"; slot_start := 480; slot_end := 600 |}
                    {| slot_id := "b"; slot_start := 630; slot_end := 720 |};
     gap_message 720 {| slot_id := "b"; slot_start := 630; slot_end := 720 |}
                     {| slot_id := "a"; slot_start := 480; slot_end := 600 |}].
Proof.
  split.
  - apply (proj1 (coverage_accounts_for_findings
                    [sample_show "a" "08:00" "10:00"; sample_show "b" "10:30" "12:00"]
                    [{| slot_id := "a"; slot_start := 480; slot_end := 600 |};
                     {| slot_id := "b"; slot_start := 630; slot_end := 720 |}]
                    {| slot_id := "a"; slot_start := 480; slot_end := 600 |}
                    [{| slot_id := "b"; slot_start := 630; slot_end := 720 |}]
                    eq_refl eq_refl)).
  - vm_compute; reflexivity.
Defined.

(** ** Checkers without findings *)

Lemma mjoin_nil {M : Type} (es : list (list M)) :
  mjoin es = [] <-> Forall (fun e => e = []) es.
Proof.
  induction es as [|e es IH]; simpl.
  - split; [constructor|done].
  - split.
    + intros [-> Hes]%app_eq_nil. constructor; [done|by apply IH].
    + intros [-> Hes]%Forall_cons. by apply IH.
Qed.

(** A loop whose body appends what [f] finds for each element returns no
    finding exactly when [f] finds nothing for any element. *)
Lemma for_each_appends_nil {A M : Type} (f : A -> result (list M))
    (body : list M -> A -> result (list M)) (xs : list A) :
  (forall s x, body s x = (f x ≫= fun e => Ok (s ++ e))) ->
  for_each xs body [] = Ok [] <-> Forall (fun x => f x = Ok []) xs.
Proof.
  intros Hbody. rewrite (for_each_appends f body Hbody). split.
  - intros (es & Hes & Hnil). symmetry in Hnil. simpl in Hnil.
    apply mjoin_nil in Hnil.
    induction Hes as [|x e xs es Hx _ IH]; constructor.
    + apply Forall_cons in Hnil as [-> _]. done.
    + apply IH. by apply Forall_cons in Hnil as [_ ?].
  - intros Hall. exists (replicate (length xs) []). split.
    + induction Hall; simpl; by constructor.
    + simpl. symmetry. apply mjoin_nil. apply Forall_replicate. done.
Qed.

(** *** Ratios *)

(** What the ratio checker does for one show: the three checks, then the
    line it prints. *)
Definition ratio_findings (max_music min_talk : num) (show : Show)
    : result (list message) :=
  errors ← check_ratios max_music min_talk show [];
  _ ← percent 0 (music_fraction (ratios show));
  _ ← percent 0 (talk_fraction (ratios show));
  Ok errors.

Lemma check_ratios_frame (max_music min_talk : num) (show : Show)
    (errors : list message) :
  check_ratios max_music min_talk show errors
  = (e ← check_ratios max_music min_talk show []; Ok (errors ++ e)).
Proof.
  unfold check_ratios.
  destruct (add _ _) as [total|e]; simpl; [|done].
  destruct (sub total one) as [diff|e]; simpl; [|done].
  destruct (gt (music_fraction (ratios show)) max_music),
    (lt (talk_fraction (ratios show)) min_talk),
    (gt (abs diff) sum_tolerance);
    simpl; by rewrite <- ?app_assoc, ?app_nil_r.
Qed.

(** None of the three tests of the ratio checker fires. *)
Definition passes_ratios (max_music min_talk : num) (show : Show) : Prop :=
  gt (music_fraction (ratios show)) max_music = false /\
  lt (talk_fraction (ratios show)) min_talk = false /\
  exists total diff,
    add (music_fraction (ratios show)) (talk_fraction (ratios show)) = Ok total /\
    sub total one = Ok diff /\
    gt (abs diff) sum_tolerance = false.

Lemma check_ratios_nil (max_music min_talk : num) (show : Show) :
  check_ratios max_music min_talk show [] = Ok [] <->
  passes_ratios max_music min_talk show.
Proof.
  unfold passes_ratios. split.
  - unfold check_ratios.
    destruct (add _ _) as [total|e] eqn:Htotal; simpl; [|done].
    destruct (sub total one) as [diff|e] eqn:Hdiff; simpl; [|done].
    destruct (gt (music_fraction (ratios show)) max_music),
      (lt (talk_fraction (ratios show)) min_talk),
      (gt (abs diff) sum_tolerance) eqn:Hsum; simpl; try done.
    intros _. split; [done|]. split; [done|]. by exists total, diff.
  - intros (Hmusic & Htalk & total & diff & Htotal & Hdiff & Hsum).
    rewrite (check_ratios_spec _ _ _ _ _ _ Htotal Hdiff).
    unfold bound_findings. by rewrite Hmusic, Htalk, Hsum.
Qed.

(** X3. With the station policy loaded, the ratio checker returns no error
    exactly when, for every loaded show, none of its three tests fires
    (music > max, talk < min, |music + talk - 1.0| > 0.001) and both
    fractions can be printed as percentages. *)
Theorem ratio_errors_empty_iff (c : Config) (station : Station) :
  station_json c = Some station ->
  validate_music_ratios c = Ok [] <->
  Forall (fun show =>
            passes_ratios (max_music_fraction (default_ratios station))
                          (min_talk_fraction (default_ratios station)) show /\
            (exists f, to_float (music_fraction (ratios show)) = Ok f) /\
            (exists f, to_float (talk_fraction (ratios show)) = Ok f))
         (loaded_shows c).
Proof.
  intros Hstation. unfold validate_music_ratios. rewrite Hstation.
  set (max_music := max_music_fraction (default_ratios station)).
  set (min_talk := min_talk_fraction (default_ratios station)).
  rewrite (for_each_loaded (show_files c)
             (fun errors show =>
                errors ← check_ratios max_music min_talk show errors;
                _ ← percent 0 (music_fraction (ratios show));
                _ ← percent 0 (talk_fraction (ratios show));
                Ok errors)).
  fold (loaded_shows c).
  rewrite (for_each_appends_nil (ratio_findings max_music min_talk)).
  - apply Forall_iff. intros show. unfold ratio_findings, percent.
    rewrite <- check_ratios_nil. split.
    + destruct (check_ratios max_music min_talk show []) as [errors|e];
        simpl; [|done].
      destruct (to_float (music_fraction (ratios show))) as [f|e]; simpl; [|done].
      destruct (to_float (talk_fraction (ratios show))) as [g|e]; simpl; [|done].
      intros [= ->]. split; [done|]. split; by eexists.
    + intros (-> & [f ->] & [g ->]). done.
  - intros errors show. unfold ratio_findings.
    rewrite check_ratios_frame.
    destruct (check_ratios max_music min_talk show []) as [e|err]; simpl; [|done].
    destruct (percent 0 (music_fraction (ratios show))); simpl; [|done].
    by destruct (percent 0 (talk_fraction (ratios show))).
Qed.

Lemma ratio_errors_empty_iff_witness :
  Forall (fun show =>
            passes_ratios (PyFloat (literal 6 10)) (PyFloat (literal 4 10)) show /\
            (exists f, to_float (music_fraction (ratios show)) = Ok f) /\
            (exists f, to_float (talk_fraction (ratios show)) = Ok f))
         (loaded_shows sample_config).
Proof.
  apply (proj1 (ratio_errors_empty_iff sample_config
                  {| default_ratios :=
                       {| max_music_fraction := PyFloat (literal 6 10);
                          min_talk_fraction := PyFloat (literal 4 10) |} |}
                  eq_refl)).
  vm_compute; reflexivity.
Defined.

(** *** Budgets *)

(** Both declared budgets are within tolerance of the expected values. *)
Definition within_budget (show : Show) : Prop :=
  exists tts music tts_diff music_diff : num,
    expected_tts show = Ok tts /\
    expected_music_mins show = Ok music /\
    sub (max_tts_seconds_per_show (ai_budget show)) tts = Ok tts_diff /\
    sub (max_music_minutes_per_show (ai_budget show)) music = Ok music_diff /\
    gt (abs tts_diff) (PyInt 60) = false /\
    gt (abs music_diff) (PyInt 5) = false.

Lemma check_budget_nil (show : Show) :
  check_budget show [] = Ok [] <-> within_budget show.
Proof.
  split.
  - unfold check_budget, within_budget.
    destruct (expected_tts show) as [tts|e]; simpl; [|done].
    destruct (expected_music_mins show) as [music|e]; simpl; [|done].
    destruct (sub _ tts) as [tts_diff|e] eqn:Htts; simpl; [|done].
    destruct (gt (abs tts_diff) (PyInt 60)) eqn:Hgt_tts; simpl.
    + destruct (fixed 0 tts) as [p|e]; simpl; [|done].
      destruct (sub _ music) as [music_diff|e]; simpl; [|done].
      destruct (gt (abs music_diff) (PyInt 5)); simpl; [|done].
      by destruct (fixed 0 music).
    + destruct (sub _ music) as [music_diff|e] eqn:Hmusic; simpl; [|done].
      destruct (gt (abs music_diff) (PyInt 5)) eqn:Hgt_music; simpl.
      * by destruct (fixed 0 music).
      * intros _. by exists tts, music, tts_diff, music_diff.
  - intros (tts & music & tts_diff & music_diff
            & Htts & Hmusic & Htts_diff & Hmusic_diff & Hgt_tts & Hgt_music).
    rewrite (check_budget_spec show [] tts music tts_diff music_diff (Lit "") (Lit ""));
      try done; try congruence.
    unfold budget_findings. by rewrite Hgt_tts, Hgt_music.
Qed.

(** X4. The budget checker returns no warning exactly when, for every
    loaded show, the expected values can be computed and both declared
    budgets are within tolerance: |max_tts - expected_tts| > 60 and
    |max_music - expected_music_mins| > 5 are both false. *)
Theorem budget_warnings_empty_iff (c : Config) :
  validate_ai_budgets c = Ok [] <-> Forall within_budget (loaded_shows c).
Proof.
  unfold validate_ai_budgets.
  rewrite (for_each_appends_nil (fun show => check_budget show [])).
  - apply Forall_iff. intros show. apply check_budget_nil.
  - intros warnings show. apply check_budget_frame.
Qed.

(** ** Files that fail to load *)

Definition invalid_json (filepath : string) : message :=
  [Lit "Invalid JSON: "; Str filepath].

(** The base files that failed to load, in the order the script lists them. *)
Definition failed_base_files (c : Config) : list string :=
  (if is_none (station_json c) then ["config/station.json"] else [])
  ++ (if is_none (presenters_json c) then ["config/presenters.json"] else [])
  ++ (if is_none (tags_json c) then ["config/tags.json"] else []).

Lemma invalid_json_loop (files : list (string * option Show)) (errors : list message) :
  foldl (fun errors '(filepath, is_none) =>
           if is_none : bool then errors ++ [[Lit "Invalid JSON: "; Str filepath]]
           else errors)
        errors (map (fun f => (f.1, is_none f.2)) files)
  = errors ++ (invalid_json <$> (fst <$> filter (fun f => f.2 = None) files)).
Proof.
  revert errors. induction files as [|[filepath loaded] files IH]; intros errors.
  - simpl. by rewrite app_nil_r.
  - destruct loaded as [show|]; simpl; rewrite IH.
    + done.
    + by rewrite <- app_assoc.
Qed.

Lemma filter_nil_iff {A : Type} (P : A -> Prop) `{!∀ x, Decision (P x)} (l : list A) :
  filter P l = [] <-> Forall (fun x => ¬ P x) l.
Proof.
  induction l as [|x l IH].
  - split; [constructor|done].
  - rewrite filter_cons. destruct (decide (P x)) as [HP|HP].
    + split; [done|]. by intros [? _]%Forall_cons.
    + rewrite IH. split; [by constructor|by intros [_ ?]%Forall_cons].
Qed.

(** The syntax check lists the files that failed, base files first. *)
Lemma validate_json_syntax_spec (c : Config) :
  validate_json_syntax c
  = invalid_json
    <$> (failed_base_files c ++ (fst <$> filter (fun f => f.2 = None) (shows_glob c))).
Proof.
  unfold validate_json_syntax, failed_base_files.
  cbn [app foldl]. rewrite invalid_json_loop.
  destruct (station_json c), (presenters_json c), (tags_json c); reflexivity.
Qed.

(** X5. The syntax check returns one "Invalid JSON: <path>" error for each
    file that fails to load and nothing else: first the base files, in the
    order station, presenters, tags, then the show files in the order the
    directory yields them (unsorted).  It returns no error exactly when
    every file loads. *)
Theorem json_syntax_errors (c : Config) :
  validate_json_syntax c
  = invalid_json
    <$> (failed_base_files c ++ (fst <$> filter (fun f => f.2 = None) (shows_glob c))) /\
  (validate_json_syntax c = [] <->
   is_Some (station_json c) /\ is_Some (presenters_json c) /\
   is_Some (tags_json c) /\ Forall (fun f => is_Some f.2) (shows_glob c)).
Proof.
  split; [apply validate_json_syntax_spec|].
  rewrite validate_json_syntax_spec. unfold failed_base_files. split.
  - intros Hnil%fmap_nil_inv.
    apply app_eq_nil in Hnil as [Hbase Hshows].
    apply fmap_nil_inv, filter_nil_iff in Hshows.
    destruct (station_json c), (presenters_json c), (tags_json c);
      try discriminate Hbase.
    repeat split; try done.
    eapply Forall_impl; [exact Hshows|]. simpl.
    intros [filepath [show|]] Hf; [done|by destruct Hf].
  - intros ([station ->] & [presenters_data ->] & [tags_data ->] & Hshows).
    simpl. replace (filter _ (shows_glob c)) with (@nil (string * option Show)); [done|].
    symmetry. apply filter_nil_iff.
    eapply Forall_impl; [exact Hshows|]. simpl.
    intros f [show Hf] Hnone. congruence.
Qed.

(** ** Cross references that all resolve *)

Lemma cross_references_spec (c : Config)
    (presenters_data : PresentersData) (tags_data : TagsData) :
  presenters_json c = Some presenters_data ->
  tags_json c = Some tags_data ->
  validate_cross_references c
  = mjoin (file_findings
             (list_to_set (presenter_id <$> presenters_list presenters_data))
             (list_to_set (allowed_topic_tags tags_data))
           <$> show_files c).
Proof.
  intros Hpresenters Htags.
  unfold validate_cross_references. rewrite Hpresenters, Htags.
  set (presenter_ids := list_to_set _).
  set (allowed_tags := list_to_set _).
  rewrite <- (app_nil_l (mjoin _)).
  rewrite <- foldl_append_each.
  generalize (@nil message). induction (show_files c) as [|[show_file loaded] files IH];
    intros errors; [done|].
  simpl. rewrite <- IH. f_equal.
  unfold file_findings. simpl. destruct loaded as [show|]; [|done].
  apply check_references_spec.
Qed.

Lemma show_files_perm (c : Config) : show_files c ≡ₚ shows_glob c.
Proof. apply sorted_perm. Qed.

(** Every presenter and every tag of the show is in the roster and in the
    vocabulary. *)
Definition references_resolve (presenters_data : PresentersData)
    (tags_data : TagsData) (show : Show) : Prop :=
  Forall (fun p => p ∈ presenter_id <$> presenters_list presenters_data)
         (primary_duo (presenters show)) /\
  Forall (fun t => t ∈ allowed_topic_tags tags_data)
         (primary_tags (topics show)).

Lemma reference_violations_nil (presenters_data : PresentersData)
    (tags_data : TagsData) (show : Show) :
  reference_violations
    (list_to_set (presenter_id <$> presenters_list presenters_data))
    (list_to_set (allowed_topic_tags tags_data)) show = [] <->
  references_resolve presenters_data tags_data show.
Proof.
  unfold reference_violations, references_resolve. split.
  - intros [Hduo Htags]%app_eq_nil.
    apply fmap_nil_inv, filter_nil_iff in Hduo.
    apply fmap_nil_inv, filter_nil_iff in Htags.
    split; (eapply Forall_impl; [eassumption|]); simpl;
      intros x Hx%dec_stable; by apply elem_of_list_to_set in Hx.
  - intros [Hduo Htags].
    assert (forall ids : list string, forall l,
               Forall (fun x => x ∈ ids) l ->
               filter (fun x => x ∉ (list_to_set ids : gset string)) l = []) as Hnone.
    { intros ids l Hl. apply filter_nil_iff.
      eapply Forall_impl; [exact Hl|]. simpl. intros x Hx Hnot.
      apply Hnot. by apply elem_of_list_to_set. }
    by rewrite (Hnone _ _ Hduo), (Hnone _ _ Htags).
Qed.

(** X6. With the roster and the vocabulary loaded, the cross-reference
    checker returns no error exactly when every show file loads and every
    presenter id and topic tag of every show is listed in the roster,
    respectively the vocabulary. *)
Theorem cross_references_empty_iff (c : Config)
    (presenters_data : PresentersData) (tags_data : TagsData) :
  presenters_json c = Some presenters_data ->
  tags_json c = Some tags_data ->
  validate_cross_references c = [] <->
  Forall (fun f => exists show, f.2 = Some show /\
                               references_resolve presenters_data tags_data show)
         (shows_glob c).
Proof.
  intros Hpresenters Htags.
  rewrite (cross_references_spec c _ _ Hpresenters Htags).
  rewrite mjoin_nil, Forall_fmap, <- (show_files_perm c).
  apply Forall_iff. intros [show_file [show|]]; unfold file_findings; simpl.
  - rewrite reference_violations_nil. split; [by exists show|].
    by intros (show' & [= <-] & ?).
  - split; [done|]. by intros (show' & [=] & _).
Qed.

(** A configuration with every file loaded and nothing to report. *)
Definition tidy_config : Config :=
  {| station_json :=
       Some {| default_ratios :=
                 {| max_music_fraction := PyFloat (literal 6 10);
                    min_talk_fraction := PyFloat (literal 4 10) |} |};
     presenters_json :=
       Some {| presenters_list :=
                 [{| presenter_id := "alex" |}; {| presenter_id := "sam" |}] |};
     tags_json := Some {| allowed_topic_tags := ["weather"; "commute"] |};
     shows_glob :=
       [("config/shows/evening.json",
         Some (sample_show "evening" "12:00" "00:00"));
        ("config/shows/morning.json",
         Some (sample_show "morning" "00:00" "12:00"))] |}.

Lemma cross_references_empty_iff_witness :
  validate_cross_references tidy_config = [].
Proof.
  apply (proj2 (cross_references_empty_iff tidy_config
                  {| presenters_list :=
                       [{| presenter_id := "alex" |}; {| presenter_id := "sam" |}] |}
                  {| allowed_topic_tags := ["weather"; "commute"] |}
                  eq_refl eq_refl)).
  constructor; [|constructor; [|constructor]].
  - exists (sample_show "evening" "12:00" "00:00"). split; [reflexivity|].
    split; repeat constructor.
  - exists (sample_show "morning" "00:00" "12:00"). split; [reflexivity|].
    split; repeat constructor.
Defined.

(** ** The run as a whole *)

(** [main] returns a report exactly when the three checkers that can raise
    return their lists. *)
Lemma main_report (c : Config) (report : Report) :
  main c = Ok report <->
  exists ratio_errors schedule_errors warnings,
    validate_music_ratios c = Ok ratio_errors /\
    validate_schedule_coverage c = Ok schedule_errors /\
    validate_ai_budgets c = Ok warnings /\
    report = {| all_errors := validate_json_syntax c ++ validate_cross_references c
                              ++ ratio_errors ++ schedule_errors;
                all_warnings := warnings;
                exit_status :=
                  match validate_json_syntax c ++ validate_cross_references c
                        ++ ratio_errors ++ schedule_errors with
                  | [] => 0
                  | _ :: _ => 1
                  end |}.
Proof.
  unfold main. split.
  - destruct (validate_music_ratios c) as [ratio_errors|e]; simpl; [|done].
    destruct (validate_schedule_coverage c) as [schedule_errors|e]; simpl; [|done].
    destruct (validate_ai_budgets c) as [warnings|e]; simpl; [|done].
    intros [= <-]. exists ratio_errors, schedule_errors, warnings.
    repeat split. by rewrite <- !app_assoc.
  - intros (ratio_errors & schedule_errors & warnings & -> & -> & -> & ->).
    simpl. by rewrite <- !app_assoc.
Qed.


(** X9. A show file that fails to load is reported twice, as
    "Invalid JSON: <path>" by the syntax check and, when roster and
    vocabulary are loaded, as "Failed to load <path>" by the cross-reference
    checker; a run that ends with a report has both errors and exit status
    1. *)
Theorem unloadable_show_reported_twice (c : Config) (path : string) :
  (path, None) ∈ shows_glob c ->
  invalid_json path ∈ validate_json_syntax c /\
  (is_Some (presenters_json c) -> is_Some (tags_json c) ->
   [Lit "Failed to load "; Str path] ∈ validate_cross_references c) /\
  (forall report,
     main c = Ok report ->
     invalid_json path ∈ all_errors report /\ exit_status report = 1).
Proof.
  intros Hpath.
  assert (Hjson : invalid_json path ∈ validate_json_syntax c).
  { rewrite validate_json_syntax_spec.
    apply list_elem_of_fmap_2, elem_of_app. right.
    apply (list_elem_of_fmap_2' fst _ (path, None)); [|done].
    by apply list_elem_of_filter. }
  split; [done|]. split.
  - intros [presenters_data Hpresenters] [tags_data Htags].
    rewrite (cross_references_spec c _ _ Hpresenters Htags).
    apply list_elem_of_join. exists [[Lit "Failed to load "; Str path]].
    split; [by left|].
    apply (list_elem_of_fmap_2' _ _ (path, None)); [|done].
    by rewrite show_files_perm.
  - intros report (ratio_errors & schedule_errors & warnings & _ & _ & _ & ->)%main_report.
    simpl. split; [by apply elem_of_app; left|].
    destruct (validate_json_syntax c) as [|m errors]; [by apply elem_of_nil in Hjson|done].
Qed.

(** The configuration of the samples with its evening show unreadable. *)
Definition broken_config : Config :=
  {| station_json := station_json tidy_config;
     presenters_json := presenters_json tidy_config;
     tags_json := tags_json tidy_config;
     shows_glob :=
       [("config/shows/evening.json", None);
        ("config/shows/morning.json",
         Some (sample_show "morning" "00:00" "00:00"))] |}.

Lemma unloadable_show_reported_twice_witness :
  invalid_json "config/shows/evening.json" ∈ validate_json_syntax broken_config /\
  [Lit "Failed to load "; Str "config/shows/evening.json"]
  ∈ validate_cross_references broken_config.
Proof.
  destruct (unloadable_show_reported_twice broken_config "config/shows/evening.json")
    as (Hjson & Hcross & _).
  - by left.
  - split; [exact Hjson|]. apply Hcross; by eexists.
Defined.

(** *** The sample configurations

    [tidy_config] passes every check; [broken_config] has one unreadable
    show file. *)
Lemma budget_warnings_empty_iff_witness :
  Forall within_budget (loaded_shows tidy_config).
Proof.
  apply (proj1 (budget_warnings_empty_iff tidy_config)).
  vm_compute; reflexivity.
Defined.

Lemma json_syntax_errors_witness :
  validate_json_syntax broken_config = [invalid_json "config/shows/evening.json"].
Proof.
  rewrite (proj1 (json_syntax_errors broken_config)).
  vm_compute; reflexivity.
Defined.


(** ** The order of the directory listing *)

Lemma show_files_Sorted (c : Config) :
  Sorted (fun a b : string * option Show => String.le a.1 b.1) (show_files c).
Proof.
  assert (Hs : Sorted (fun a b : string * option Show => String.leb a.1 b.1 = true)
                 (show_files c)).
  { apply sorted_Sorted. intros a b.
    destruct (String.leb a.1 b.1) eqn:Hab; [by left|right].
    destruct (total String.le a.1 b.1) as [H|H]; unfold String.le in H.
    - rewrite Hab in H. done.
    - by apply Is_true_true. }
  induction Hs as [|x l Hl IH Hhd]; constructor; [done|].
  destruct Hhd; constructor. unfold String.le. by apply Is_true_true.
Qed.

Lemma show_files_listing (c1 c2 : Config) :
  shows_glob c1 ≡ₚ shows_glob c2 ->
  NoDup (fst <$> shows_glob c1) ->
  show_files c1 = show_files c2.
Proof.
  intros Hperm Hnodup.
  assert (Hfiles : show_files c1 ≡ₚ show_files c2).
  { by rewrite !show_files_perm. }
  assert (Htrans : Transitive (fun a b : string * option Show => String.le a.1 b.1)).
  { intros a b d Hab Hbd. by etrans. }
  apply (Sorted_unique_strong (fun a b : string * option Show => String.le a.1 b.1));
    [|apply show_files_Sorted|apply show_files_Sorted|done].
  intros x1 x2 Hx1 Hx2 H12 H21.
  assert (Hpath : x1.1 = x2.1) by (by apply (anti_symm String.le)).
  rewrite show_files_perm in Hx1. rewrite show_files_perm, <- Hperm in Hx2.
  clear -Hnodup Hx1 Hx2 Hpath.
  induction (shows_glob c1) as [|y l IH]; [by apply elem_of_nil in Hx1|].
  rewrite fmap_cons in Hnodup. apply NoDup_cons in Hnodup as [Hy Hnodup].
  apply elem_of_cons in Hx1 as [->|Hx1], Hx2 as [->|Hx2]; [done| | |by apply IH].
  - destruct Hy. rewrite Hpath. by apply list_elem_of_fmap_2.
  - destruct Hy. rewrite <- Hpath. by apply list_elem_of_fmap_2.
Qed.

(** X10. The order in which the directory yields the show files does not
    matter (file paths being distinct): the cross-reference, ratio, schedule
    and budget checkers return the same lists, in the same order, and the
    syntax check returns the same errors up to their order.  The run ends
    the same way: with the same exception, or with the same warnings, the
    same errors up to order and the same exit status. *)
Theorem listing_order_irrelevant (c1 c2 : Config) :
  station_json c1 = station_json c2 ->
  presenters_json c1 = presenters_json c2 ->
  tags_json c1 = tags_json c2 ->
  shows_glob c1 ≡ₚ shows_glob c2 ->
  NoDup (fst <$> shows_glob c1) ->
  validate_cross_references c1 = validate_cross_references c2 /\
  validate_music_ratios c1 = validate_music_ratios c2 /\
  validate_schedule_coverage c1 = validate_schedule_coverage c2 /\
  validate_ai_budgets c1 = validate_ai_budgets c2 /\
  validate_json_syntax c1 ≡ₚ validate_json_syntax c2 /\
  match main c1, main c2 with
  | Ok report1, Ok report2 =>
      all_errors report1 ≡ₚ all_errors report2 /\
      all_warnings report1 = all_warnings report2 /\
      exit_status report1 = exit_status report2
  | Raise e1, Raise e2 => e1 = e2
  | _, _ => False
  end.
Proof.
  intros Hstation Hpresenters Htags Hperm Hnodup.
  pose proof (show_files_listing c1 c2 Hperm Hnodup) as Hfiles.
  assert (Hcross : validate_cross_references c1 = validate_cross_references c2).
  { unfold validate_cross_references. by rewrite Hpresenters, Htags, Hfiles. }
  assert (Hratios : validate_music_ratios c1 = validate_music_ratios c2).
  { unfold validate_music_ratios. by rewrite Hstation, Hfiles. }
  assert (Hschedule : validate_schedule_coverage c1 = validate_schedule_coverage c2).
  { unfold validate_schedule_coverage, loaded_shows. by rewrite Hfiles. }
  assert (Hbudgets : validate_ai_budgets c1 = validate_ai_budgets c2).
  { unfold validate_ai_budgets, loaded_shows. by rewrite Hfiles. }
  assert (Hjson : validate_json_syntax c1 ≡ₚ validate_json_syntax c2).
  { rewrite !validate_json_syntax_spec. unfold failed_base_files.
    rewrite Hstation, Hpresenters, Htags. by rewrite Hperm. }
  repeat split; try done.
  unfold main. rewrite Hcross, Hratios, Hschedule, Hbudgets.
  destruct (validate_music_ratios c2) as [ratio_errors|e]; simpl; [|done].
  destruct (validate_schedule_coverage c2) as [schedule_errors|e]; simpl; [|done].
  destruct (validate_ai_budgets c2) as [warnings|e]; simpl; [|done].
  assert (Hall : (validate_json_syntax c1 ++ validate_cross_references c2)
                 ++ ratio_errors ++ schedule_errors
                 ≡ₚ (validate_json_syntax c2 ++ validate_cross_references c2)
                 ++ ratio_errors ++ schedule_errors) by (by rewrite Hjson).
  split; [|split; [done|]].
  - by rewrite <- !app_assoc in *.
  - rewrite <- !app_assoc in *.
    destruct (validate_json_syntax c1 ++ _) as [|m1 errors1],
      (validate_json_syntax c2 ++ _) as [|m2 errors2]; try done.
    + by apply Permutation_nil_cons in Hall.
    + symmetry in Hall. by apply Permutation_nil_cons in Hall.
Qed.

(** The files of [tidy_config], listed the other way round. *)
Definition relisted_config : Config :=
  {| station_json := station_json tidy_config;
     presenters_json := presenters_json tidy_config;
     tags_json := tags_json tidy_config;
     shows_glob :=
       [("config/shows/morning.json",
         Some (sample_show "morning" "00:00" "12:00"));
        ("config/shows/evening.json",
         Some (sample_show "evening" "12:00" "00:00"))] |}.

Lemma listing_order_irrelevant_witness :
  validate_cross_references tidy_config = validate_cross_references relisted_config /\
  validate_schedule_coverage tidy_config = validate_schedule_coverage relisted_config.
Proof.
  destruct (listing_order_irrelevant tidy_config relisted_config)
    as (Hcross & _ & Hschedule & _); try reflexivity.
  - apply perm_swap.
  - apply (bool_decide_unpack _). vm_compute. exact I.
  - by split.
Defined.

(** ** No show at all *)

(** X11. When no show file loads (the directory is empty, or every file in
    it fails), the schedule checker returns the single error "Total
    coverage is 0.0 hours, not 24", the budget checker returns no warning,
    and the run ends with a report that holds this error and exit status
    1. *)
Theorem no_show_fails (c : Config) :
  loaded_shows c = [] ->
  validate_schedule_coverage c = Ok [coverage_message (Fixed 1 (S754_zero false))] /\
  validate_ai_budgets c = Ok [] /\
  exists report,
    main c = Ok report /\
    coverage_message (Fixed 1 (S754_zero false)) ∈ all_errors report /\
    all_warnings report = [] /\
    exit_status report = 1.
Proof.
  intros Hnone.
  assert (Hschedule : validate_schedule_coverage c
                      = Ok [coverage_message (Fixed 1 (S754_zero false))]).
  { unfold validate_schedule_coverage. rewrite Hnone. vm_compute; reflexivity. }
  assert (Hbudgets : validate_ai_budgets c = Ok []).
  { unfold validate_ai_budgets. by rewrite Hnone. }
  assert (Hratios : exists ratio_errors, validate_music_ratios c = Ok ratio_errors).
  { unfold validate_music_ratios. destruct (station_json c) as [station|]; [|by eexists].
    rewrite (for_each_loaded (show_files c)
               (fun errors show =>
                  errors ← check_ratios (max_music_fraction (default_ratios station))
                             (min_talk_fraction (default_ratios station)) show errors;
                  _ ← percent 0 (music_fraction (ratios show));
                  _ ← percent 0 (talk_fraction (ratios show));
                  Ok errors)).
    fold (loaded_shows c). rewrite Hnone. by eexists. }
  destruct Hratios as [ratio_errors Hratios].
  split; [done|]. split; [done|].
  eexists. split.
  - apply main_report. exists ratio_errors, [coverage_message (Fixed 1 (S754_zero false))], [].
    by repeat split.
  - simpl. split; [|split; [done|]].
    + rewrite !elem_of_app. right. right. right. by left.
    + destruct (validate_json_syntax c ++ _) eqn:Herrors; [|done].
      apply app_eq_nil in Herrors as [_ Herrors].
      apply app_eq_nil in Herrors as [_ Herrors].
      by apply app_eq_nil in Herrors as [_ Herrors].
Qed.

(** The samples' base files with an empty shows directory. *)
Definition empty_config : Config :=
  {| station_json := station_json tidy_config;
     presenters_json := presenters_json tidy_config;
     tags_json := tags_json tidy_config;
     shows_glob := [] |}.

Lemma no_show_fails_witness :
  validate_schedule_coverage empty_config
  = Ok [coverage_message (Fixed 1 (S754_zero false))].
Proof. apply (proj1 (no_show_fails empty_config eq_refl)). Defined.

(** ** Reading back the printed times *)

(** [{n:02d}]: the decimal text of [n], filled with zeros to two
    characters. *)
Definition pad2 (n : Z) : string :=
  let s := str_of_int n in
  if (String.length s <? 2)%nat then String "0" s else s.

(** [{m//60:02d}:{m%60:02d}] *)
Definition clock (minutes : Z) : string :=
  String.append (pad2 (minutes / 60)) (String ":" (pad2 (minutes mod 60))).

(** The line the closing loop prints for a slot. *)
Definition schedule_line (s : Slot) : result message :=
  duration ← truediv (PyInt (slot_end s - slot_start s)) (PyInt 60);
  p ← fixed 1 duration;
  Ok [Lit "  "; Str (slot_id s); Lit ": "; Str (clock (slot_start s)); Lit " - ";
      Str (clock (slot_end s)); Lit " ("; p; Lit "h)"].

Lemma print_schedule_lines (slots : list Slot) :
  print_schedule slots = for_each slots (fun _ s => _ ← schedule_line s; Ok tt) tt.
Proof.
  unfold print_schedule. generalize tt.
  induction slots as [|s slots IH]; intros u; [done|].
  rewrite !for_each_cons. unfold schedule_line.
  destruct (truediv _ _) as [duration|e]; simpl; [|done].
  destruct (fixed 1 duration) as [p|e]; simpl; [|done].
  apply IH.
Qed.

(** The value of a digit sequence, most significant digit first. *)
Fixpoint horner (acc : Z) (d : Decimal.uint) : Z :=
  match d with
  | Decimal.Nil => acc
  | Decimal.D0 l => horner (acc * 10 + 0) l
  | Decimal.D1 l => horner (acc * 10 + 1) l
  | Decimal.D2 l => horner (acc * 10 + 2) l
  | Decimal.D3 l => horner (acc * 10 + 3) l
  | Decimal.D4 l => horner (acc * 10 + 4) l
  | Decimal.D5 l => horner (acc * 10 + 5) l
  | Decimal.D6 l => horner (acc * 10 + 6) l
  | Decimal.D7 l => horner (acc * 10 + 7) l
  | Decimal.D8 l => horner (acc * 10 + 8) l
  | Decimal.D9 l => horner (acc * 10 + 9) l
  end.

Definition uint_chars (d : Decimal.uint) : list ascii :=
  list_ascii_of_string (NilEmpty.string_of_uint d).

(** Neither white space nor the separator of the times. *)
Definition plain (c : ascii) : Prop :=
  is_space c = false /\ Ascii.eqb c ":" = false.

Lemma horner_acc (d : Decimal.uint) (acc : positive) :
  horner (Z.pos acc) d = Z.pos (Pos.of_uint_acc d acc).
Proof.
  revert acc. induction d as [|d IH|d IH|d IH|d IH|d IH|d IH|d IH|d IH|d IH|d IH];
    intros acc; simpl; [done|..]; rewrite <- IH; f_equal; lia.
Qed.

Lemma horner_0 (d : Decimal.uint) : horner 0 d = Z.of_N (Pos.of_uint d).
Proof.
  induction d as [|d IH|d IH|d IH|d IH|d IH|d IH|d IH|d IH|d IH|d IH];
    simpl; [done|exact IH|..]; by rewrite <- horner_acc.
Qed.

Lemma digits_digit (c : ascii) (k acc : Z) (prev : seen) (rest : list ascii) :
  digit_of c = Some k ->
  digits acc prev (c :: rest) = digits (acc * 10 + k) Digit rest.
Proof. intros Hc. simpl. by rewrite Hc. Qed.

Lemma digits_uint (d : Decimal.uint) (acc : Z) (prev : seen) :
  d <> Decimal.Nil \/ prev = Digit ->
  digits acc prev (uint_chars d) = Some (horner acc d).
Proof.
  revert acc prev.
  induction d as [|d IH|d IH|d IH|d IH|d IH|d IH|d IH|d IH|d IH|d IH];
    intros acc prev Hd;
    [by destruct Hd as [?| ->]|..];
    (etrans; [apply digits_digit; vm_compute; reflexivity|]);
    apply IH; by right.
Qed.

Lemma uint_chars_plain (d : Decimal.uint) : Forall plain (uint_chars d).
Proof.
  induction d as [|d IH|d IH|d IH|d IH|d IH|d IH|d IH|d IH|d IH|d IH];
    [constructor|..]; (constructor; [by vm_compute|exact IH]).
Qed.

Lemma lstrip_plain (l : list ascii) :
  Forall (fun c => is_space c = false) l -> lstrip l = l.
Proof. destruct 1 as [|c l Hc _]; simpl; [done|by rewrite Hc]. Qed.

Lemma strip_plain (l : list ascii) :
  Forall (fun c => is_space c = false) l -> strip l = l.
Proof.
  intros Hl. unfold strip. rewrite (lstrip_plain l Hl).
  rewrite lstrip_plain; [apply rev_involutive|by apply Forall_rev].
Qed.

(** [int] on an unsigned literal without white space. *)
Lemma int_unsigned (s : string) (z : Z) :
  Forall (fun c => is_space c = false) (list_ascii_of_string s) ->
  digits 0 Nothing (list_ascii_of_string s) = Some z ->
  int s = Ok z.
Proof.
  intros Hs Hz. unfold int. rewrite (strip_plain _ Hs).
  destruct (list_ascii_of_string s) as [|c rest]; [done|].
  destruct (Ascii.eqb_spec c "-") as [->|_]; [done|].
  destruct (Ascii.eqb_spec c "+") as [->|_]; [done|].
  by rewrite Hz.
Qed.

Lemma int_negative (s : string) (z : Z) :
  Forall (fun c => is_space c = false) (list_ascii_of_string s) ->
  digits 0 Nothing (list_ascii_of_string s) = Some z ->
  int (String "-" s) = Ok (- z).
Proof.
  intros Hs Hz. unfold int.
  change (list_ascii_of_string (String "-" s)) with ("-"%char :: list_ascii_of_string s).
  rewrite strip_plain by (constructor; [by vm_compute|done]).
  change (Ascii.eqb "-" "-") with true. cbv iota beta.
  by rewrite Hz.
Qed.

(** [str] of an int: the digits of its absolute value, none missing, after
    a minus sign when it is negative. *)
Lemma str_of_int_digits (z : Z) :
  exists d : Decimal.uint,
    d <> Decimal.Nil /\ horner 0 d = Z.abs z /\
    str_of_int z = if z <? 0 then String "-" (NilEmpty.string_of_uint d)
                   else NilEmpty.string_of_uint d.
Proof.
  destruct z as [|p|p].
  - by exists (Decimal.D0 Decimal.Nil).
  - exists (Pos.to_uint p). pose proof (DecimalPos.Unsigned.to_uint_nonnil p) as Hnil.
    split; [done|]. split.
    + by rewrite horner_0, DecimalPos.Unsigned.of_to.
    + unfold str_of_int. simpl. by destruct (Pos.to_uint p).
  - exists (Pos.to_uint p). pose proof (DecimalPos.Unsigned.to_uint_nonnil p) as Hnil.
    split; [done|]. split.
    + by rewrite horner_0, DecimalPos.Unsigned.of_to.
    + unfold str_of_int. simpl. by destruct (Pos.to_uint p).
Qed.

Lemma Forall_plain_space (l : list ascii) :
  Forall plain l -> Forall (fun c => is_space c = false) l.
Proof. intros Hl. eapply Forall_impl; [exact Hl|]. by intros c [? _]. Qed.

(** [int(str(z)) == z] *)
Lemma int_str_of_int (z : Z) : int (str_of_int z) = Ok z.
Proof.
  destruct (str_of_int_digits z) as (d & Hnil & Hval & ->).
  destruct (Z.ltb_spec z 0).
  - replace z with (- horner 0 d) by lia.
    apply int_negative; [apply Forall_plain_space, uint_chars_plain|].
    apply digits_uint. by left.
  - replace z with (horner 0 d) by lia.
    apply int_unsigned; [apply Forall_plain_space, uint_chars_plain|].
    apply digits_uint. by left.
Qed.

Lemma str_of_int_plain (z : Z) :
  Forall plain (list_ascii_of_string (str_of_int z)).
Proof.
  destruct (str_of_int_digits z) as (d & _ & _ & ->).
  destruct (z <? 0); [constructor; [by vm_compute|]|]; apply uint_chars_plain.
Qed.

Lemma pad2_plain (n : Z) : Forall plain (list_ascii_of_string (pad2 n)).
Proof.
  unfold pad2. destruct (_ <? _)%nat; [constructor; [by vm_compute|]|];
    apply str_of_int_plain.
Qed.

(** Filling with zeros does not change the value read back. *)
Lemma int_pad2 (n : Z) : int (pad2 n) = Ok n.
Proof.
  unfold pad2. destruct (_ <? _)%nat eqn:Hshort; [|apply int_str_of_int].
  destruct (str_of_int_digits n) as (d & Hnil & Hval & Hstr).
  rewrite Hstr in *. destruct (Z.ltb_spec n 0).
  - destruct d; try done; simpl in Hshort; by destruct (NilEmpty.string_of_uint d).
  - replace n with (horner 0 d) by lia.
    apply int_unsigned.
    + constructor; [by vm_compute|]. apply Forall_plain_space, uint_chars_plain.
    + change (list_ascii_of_string (String "0" (NilEmpty.string_of_uint d)))
        with ("0"%char :: uint_chars d).
      rewrite (digits_digit "0" 0) by (vm_compute; reflexivity).
      change (0 * 10 + 0) with 0. apply digits_uint. by right.
Qed.

Lemma split_plain (s : string) :
  Forall plain (list_ascii_of_string s) -> split ":" s = [s].
Proof.
  induction s as [|c s IH]; simpl; [done|].
  intros [[_ Hc] Hs]%Forall_cons. rewrite Hc, (IH Hs). done.
Qed.

Lemma split_clock (a b : string) :
  Forall plain (list_ascii_of_string a) ->
  Forall plain (list_ascii_of_string b) ->
  split ":" (String.append a (String ":" b)) = [a; b].
Proof.
  intros Ha Hb. induction a as [|c a IH]; simpl.
  - by rewrite (split_plain b Hb).
  - apply Forall_cons in Ha as [[_ Hc] Ha]. by rewrite Hc, (IH Ha).
Qed.

(** Parsing a printed time gives back its hours and minutes. *)
Lemma unpack2_int_clock (minutes : Z) :
  unpack2_int (split ":" (clock minutes)) = Ok (minutes / 60, minutes mod 60).
Proof.
  unfold clock. rewrite split_clock by apply pad2_plain.
  unfold unpack2_int. by rewrite !int_pad2.
Qed.

Lemma clock_midnight (minutes : Z) : clock minutes = "00:00" <-> minutes = 0.
Proof.
  split; [|by intros ->].
  intros Hclock. pose proof (unpack2_int_clock minutes) as Hparse.
  assert (Hzero : unpack2_int (split ":" "00:00") = Ok (0, 0))
    by (vm_compute; reflexivity).
  rewrite Hclock, Hzero in Hparse. injection Hparse as Hdiv Hmod.
  pose proof (Z.div_mod minutes 60). lia.
Qed.

(** X12. The times of the closing report read back: a show whose start and
    end times are written the way the report prints a slot,
    [{m//60:02d}:{m%60:02d}], parses to that very slot, whatever its
    minutes (negative or beyond the day included), with one exception: a
    slot that ends at minute 0 is printed "00:00", which is read as the end
    of the day, minute 1440. *)
Theorem printed_times_read_back (show : Show) (s : Slot) :
  show_id show = slot_id s ->
  start_time_utc (schedule show) = clock (slot_start s) ->
  end_time_utc (schedule show) = clock (slot_end s) ->
  parse_show show
  = Ok {| slot_id := slot_id s;
          slot_start := slot_start s;
          slot_end := if decide (slot_end s = 0) then 24 * 60 else slot_end s |}.
Proof.
  intros Hid Hstart Hend. unfold parse_show.
  rewrite Hid, Hstart, Hend, !unpack2_int_clock. simpl.
  do 2 f_equal.
  - pose proof (Z.div_mod (slot_start s) 60). lia.
  - case_bool_decide as Hmidnight; rewrite clock_midnight in Hmidnight;
      destruct (decide (slot_end s = 0)); try done.
    pose proof (Z.div_mod (slot_end s) 60). lia.
Qed.

Lemma printed_times_read_back_witness :
  clock 510 = "08:30" /\ clock (24 * 60) = "24:00" /\
  parse_show (sample_show "morning" "08:30" "24:00")
  = Ok {| slot_id := "morning"; slot_start := 510; slot_end := 24 * 60 |}.
Proof.
  split; [vm_compute; reflexivity|]. split; [vm_compute; reflexivity|].
  apply (printed_times_read_back (sample_show "morning" "08:30" "24:00")
           {| slot_id := "morning"; slot_start := 510; slot_end := 24 * 60 |});
    vm_compute; reflexivity.
Defined.

(** ** Not-a-number values

    [json.load] reads the token [NaN] as a float; every comparison with it
    is false and every operation on it gives it back. *)

Lemma nan_arith (fop : float -> float -> float) (zop : Z -> Z -> Z) (x y : num) :
  (forall f, fop S754_nan f = S754_nan) ->
  (forall f, fop f S754_nan = S754_nan) ->
  (x = PyFloat S754_nan /\ (exists f, to_float y = Ok f)) \/
  (y = PyFloat S754_nan /\ (exists f, to_float x = Ok f)) ->
  arith zop fop x y = Ok (PyFloat S754_nan).
Proof.
  intros Hl Hr [[-> [f Hf]]|[-> [f Hf]]]; unfold arith.
  - simpl. destruct y; simpl in *; rewrite ?Hf; simpl; by rewrite Hl.
  - destruct x as [z|g]; simpl in *; rewrite ?Hf; simpl; by rewrite Hr.
Qed.

Lemma nan_add (x y : num) :
  (x = PyFloat S754_nan /\ (exists f, to_float y = Ok f)) \/
  (y = PyFloat S754_nan /\ (exists f, to_float x = Ok f)) ->
  add x y = Ok (PyFloat S754_nan).
Proof. apply nan_arith; intros f; by destruct f. Qed.

Lemma nan_sub (x y : num) :
  (x = PyFloat S754_nan /\ (exists f, to_float y = Ok f)) \/
  (y = PyFloat S754_nan /\ (exists f, to_float x = Ok f)) ->
  sub x y = Ok (PyFloat S754_nan).
Proof. apply nan_arith; intros f; by destruct f. Qed.

Lemma nan_mul (x y : num) :
  (x = PyFloat S754_nan /\ (exists f, to_float y = Ok f)) \/
  (y = PyFloat S754_nan /\ (exists f, to_float x = Ok f)) ->
  mul x y = Ok (PyFloat S754_nan).
Proof. apply nan_arith; intros f; by destruct f. Qed.

Lemma nan_gt_l (y : num) : gt (PyFloat S754_nan) y = false.
Proof. by destruct y. Qed.

Lemma nan_lt_l (y : num) : lt (PyFloat S754_nan) y = false.
Proof. by destruct y. Qed.

Lemma one_to_float : exists f, to_float one = Ok f.
Proof. by eexists. Qed.

(** X13. A fraction that is NaN is never reported by the ratio checker:
    its own bound test and the sum test are both false, so the only error
    a show can still get is the one about its other fraction. *)
Theorem nan_fraction_unreported (max_music min_talk : num) (show : Show) :
  (music_fraction (ratios show) = PyFloat S754_nan ->
   (exists f, to_float (talk_fraction (ratios show)) = Ok f) ->
   check_ratios max_music min_talk show []
   = Ok (if lt (talk_fraction (ratios show)) min_talk
         then [talk_below (show_id show) (talk_fraction (ratios show)) min_talk]
         else [])) /\
  (talk_fraction (ratios show) = PyFloat S754_nan ->
   (exists f, to_float (music_fraction (ratios show)) = Ok f) ->
   check_ratios max_music min_talk show []
   = Ok (if gt (music_fraction (ratios show)) max_music
         then [music_exceeds (show_id show) (music_fraction (ratios show)) max_music]
         else [])).
Proof.
  split; intros Hnan Hother.
  - rewrite (check_ratios_spec _ _ _ _ (PyFloat S754_nan) (PyFloat S754_nan)).
    + unfold bound_findings. rewrite Hnan.
      change (abs (PyFloat S754_nan)) with (PyFloat S754_nan).
      rewrite !nan_gt_l. simpl. by rewrite app_nil_r.
    + apply nan_add. by left.
    + apply nan_sub. left. split; [done|apply one_to_float].
  - rewrite (check_ratios_spec _ _ _ _ (PyFloat S754_nan) (PyFloat S754_nan)).
    + unfold bound_findings. rewrite Hnan.
      change (abs (PyFloat S754_nan)) with (PyFloat S754_nan).
      rewrite nan_lt_l, nan_gt_l. simpl. by rewrite !app_nil_r.
    + apply nan_add. by right.
    + apply nan_sub. left. split; [done|apply one_to_float].
Qed.

(** A show whose music fraction is NaN, with too little talk. *)
Definition nan_music_show : Show :=
  {| show_id := "night";
     presenters := {| primary_duo := ["alex"; "sam"] |};
     topics := {| primary_tags := ["weather"] |};
     ratios := {| music_fraction := PyFloat S754_nan;
                  talk_fraction := PyFloat (literal 3 10) |};
     schedule := {| start_time_utc := "00:00";
                    end_time_utc := "03:00";
                    duration_hours := PyFloat S754_nan |};
     ai_budget := {| max_tts_seconds_per_show := PyInt 0;
                     max_music_minutes_per_show := PyInt 0 |} |}.

Lemma nan_fraction_unreported_witness :
  check_ratios (PyFloat (literal 6 10)) (PyFloat (literal 4 10)) nan_music_show []
  = Ok [talk_below "night" (PyFloat (literal 3 10)) (PyFloat (literal 4 10))].
Proof.
  rewrite (proj1 (nan_fraction_unreported (PyFloat (literal 6 10))
                    (PyFloat (literal 4 10)) nan_music_show) eq_refl);
    [vm_compute; reflexivity|].
  eexists. reflexivity.
Defined.

(** X14. A show whose [duration_hours] is NaN gets no budget warning,
    whatever its budgets: both expected values are NaN and both
    tolerance tests are false. *)
Theorem nan_duration_unreported (show : Show) :
  duration_hours (schedule show) = PyFloat S754_nan ->
  (exists f, to_float (talk_fraction (ratios show)) = Ok f) ->
  (exists f, to_float (music_fraction (ratios show)) = Ok f) ->
  (exists f, to_float (max_tts_seconds_per_show (ai_budget show)) = Ok f) ->
  (exists f, to_float (max_music_minutes_per_show (ai_budget show)) = Ok f) ->
  check_budget show [] = Ok [].
Proof.
  intros Hnan Htalk Hmusic Htts_budget Hmusic_budget.
  assert (Htotal : mul (duration_hours (schedule show)) (PyInt 3600)
                   = Ok (PyFloat S754_nan)).
  { rewrite Hnan. vm_compute; reflexivity. }
  assert (Htts : expected_tts show = Ok (PyFloat S754_nan)).
  { unfold expected_tts. rewrite Htotal.
    change (mul (PyFloat S754_nan) (talk_fraction (ratios show))
            = Ok (PyFloat S754_nan)).
    apply nan_mul. by left. }
  assert (Hmins : expected_music_mins show = Ok (PyFloat S754_nan)).
  { unfold expected_music_mins. rewrite Htotal.
    change ((mul (PyFloat S754_nan) (music_fraction (ratios show))
             ≫= fun music_seconds => truediv music_seconds (PyInt 60))
            = Ok (PyFloat S754_nan)).
    rewrite nan_mul by (by left). vm_compute; reflexivity. }
  rewrite (check_budget_spec show [] _ _ (PyFloat S754_nan) (PyFloat S754_nan)
             (Lit "") (Lit "") Htts Hmins).
  - done.
  - apply nan_sub. by right.
  - apply nan_sub. by right.
  - done.
  - done.
Qed.

Lemma nan_duration_unreported_witness : check_budget nan_music_show [] = Ok [].
Proof.
  apply nan_duration_unreported; try reflexivity; eexists; reflexivity.
Defined.
